(** * Document-Compliance-Checker: cache, validator and text patcher

    A shallow embedding of the three core services of the repository
    ([app/services/modify.py], [app/services/security.py] and
    [app/services/cache.py]) together with the properties that the
    specification states about them.

    Conventions of the embedding:
    - a Python [str] is a list of characters ([list ascii]) where it is
      sliced, and a [string] where it is only compared or concatenated;
    - a Python [bytes] value is a [list byte];
    - Python integers are [Z]; [len] is [Z.of_nat (length _)];
    - a dictionary read through [.get] becomes a record of optional fields;
    - the cache directory is a finite map from file names to files. *)

From Stdlib Require Import ZArith Lia Bool Ascii String Sorted.
From Stdlib.Strings Require Import Byte.
From stdpp Require Import base list strings gmap fin_maps pretty.

Open Scope Z_scope.

(** ** Python sequence slicing *)

Module PySlice.
Section Slice.
Context {A : Type}.

  (** Normalisation of one slice bound against a sequence of length [n]:
      a negative bound counts from the end, and every bound is clamped
      into [0, n] (CPython's [PySlice_AdjustIndices] with step 1). *)
Definition adjust (n : Z) (i : Z) : nat :=
    Z.to_nat (if i <? 0 then Z.max (i + n) 0 else Z.min i n).

Definition len (s : list A) : Z := Z.of_nat (length s).

  (** [s[:hi]] *)
Definition upto (s : list A) (hi : Z) : list A :=
    take (adjust (len s) hi) s.

  (** [s[lo:]] *)
Definition from (s : list A) (lo : Z) : list A :=
    drop (adjust (len s) lo) s.

  (** [s[lo:hi]] *)
Definition slice (s : list A) (lo hi : Z) : list A :=
    let l := adjust (len s) lo in
    let h := adjust (len s) hi in
    take (h - l) (drop l s).

End Slice.
End PySlice.

(** ** The text patcher ([app/services/modify.py]) *)

Module Modify.
Import PySlice.

(** Python [str], as a sequence of characters. *)
Definition str := list ascii.

Definition str_of (s : string) : str := list_ascii_of_string s.

(** One entry of [enhanced_issues].  The function reads four keys, all
    through [.get] (or after a truthiness test), so a key may be missing:
    - [offset], [length]: [None] when the key is missing (default 0);
    - [context_improvement]: [None] when missing (or Python [None]);
    - [enhanced]: truthiness of [issue.get('enhanced')]. *)
Record issue := Issue {
  offset : option Z;
  length_ : option Z;
  context_improvement : option str;
  enhanced : bool
}.

(** [issue.get('offset', 0)] and [issue.get('length', 0)] *)
Definition get_offset (i : issue) : Z := default 0 (offset i).
Definition get_length (i : issue) : Z := default 0 (length_ i).

(** Truthiness of [issue.get('context_improvement')]: a present,
    non-empty string. *)
Definition truthy_improvement (i : issue) : bool :=
  match context_improvement i with
  | Some (_ :: _) => true
  | _ => false
  end.

(** [issue.get('context_improvement') and issue.get('enhanced')] *)
Definition participates (i : issue) : bool :=
  truthy_improvement i && enhanced i.

(** [sorted(enhanced_issues, key=lambda x: x.get('offset', 0), reverse=True)].
    Python's [sorted] is stable, also with [reverse=True]: the result is
    ordered by decreasing key and issues with equal keys keep their input
    order.  A stable sort is determined by that description; it is
    written here as an insertion sort. *)
Fixpoint insert_desc (x : issue) (l : list issue) : list issue :=
  match l with
  | [] => [x]
  | y :: l' =>
      if get_offset x <? get_offset y then y :: insert_desc x l'
      else x :: l
  end.

Fixpoint sorted_desc (l : list issue) : list issue :=
  match l with
  | [] => []
  | x :: l' => insert_desc x (sorted_desc l')
  end.

(** The double quote character, code point 34. *)
Definition quote : ascii := ascii_of_nat 34.

(** [improvement.startswith(q)], with [q] the one-character string
    made of the double quote. *)
Definition startswith_quote (s : str) : bool :=
  match s with
  | c :: _ => Ascii.eqb c quote
  | [] => false
  end.

(** [improvement.endswith(q)] *)
Definition endswith_quote (s : str) : bool :=
  match last s with
  | Some c => Ascii.eqb c quote
  | None => false
  end.

(** Lines 56-61: the replacement computed from the improvement. *)
Definition replacement_of (improvement : str) : str :=
  if startswith_quote improvement && endswith_quote improvement
  then slice improvement 1 (-1)
  else improvement.

(** Line 64:
    [improved_text[:offset] + replacement + improved_text[offset + length:]] *)
Definition splice (improved_text : str) (offset length : Z) (replacement : str) : str :=
  upto improved_text offset ++ replacement ++ from improved_text (offset + length).

(** The body of the [for] loop (lines 45-64) for one issue. *)
Definition apply_issue (improved_text : str) (i : issue) : str :=
  if participates i then
    let offset := get_offset i in
    let length := get_length i in
    let improvement := default [] (context_improvement i) in
    let problematic_text := slice improved_text offset (offset + length) in
    let replacement := replacement_of improvement in
    splice improved_text offset length replacement
  else improved_text.

Definition apply_ai_context_improvements (text : str) (enhanced_issues : list issue) : str :=
  match enhanced_issues with
  | [] => text
  | _ =>
      let sorted_issues := sorted_desc enhanced_issues in
      foldl apply_issue text sorted_issues
  end.

(** The replacement that an issue contributes. *)
Definition replacement (i : issue) : str :=
  replacement_of (default [] (context_improvement i)).

(** *** The same loop with every sequence access checked

    [items s lo hi] copies the characters at the positions [lo] to
    [hi - 1] of [s].  It is the only access to a sequence that a slice
    performs, after its bounds have been adjusted; it is [None] (an
    out-of-range access) as soon as one of these positions lies outside
    [s]. *)
Definition items (s : str) (lo hi : nat) : option str :=
  if (hi <=? lo)%nat then Some []
  else if (hi <=? length s)%nat then Some (take (hi - lo) (drop lo s))
  else None.

Definition upto_checked (s : str) (hi : Z) : option str :=
  items s 0 (adjust (len s) hi).

Definition from_checked (s : str) (lo : Z) : option str :=
  items s (adjust (len s) lo) (length s).

Definition slice_checked (s : str) (lo hi : Z) : option str :=
  items s (adjust (len s) lo) (adjust (len s) hi).

Definition replacement_of_checked (improvement : str) : option str :=
  if startswith_quote improvement && endswith_quote improvement
  then slice_checked improvement 1 (-1)
  else Some improvement.

Definition apply_issue_checked (improved_text : str) (i : issue) : option str :=
  if participates i then
    let offset := get_offset i in
    let length := get_length i in
    let improvement := default [] (context_improvement i) in
    problematic_text ← slice_checked improved_text offset (offset + length);
    replacement ← replacement_of_checked improvement;
    head ← upto_checked improved_text offset;
    tail ← from_checked improved_text (offset + length);
    Some (head ++ replacement ++ tail)
  else Some improved_text.

Definition apply_checked (text : str) (enhanced_issues : list issue) : option str :=
  match enhanced_issues with
  | [] => Some text
  | _ =>
      let sorted_issues := sorted_desc enhanced_issues in
      foldl (fun improved_text i => improved_text ≫= fun t => apply_issue_checked t i)
            (Some text) sorted_issues
  end.

(** *** Vocabulary of the statements *)

(** [x] may stand before [y] in a list sorted by decreasing offset. *)
Definition before (x y : issue) : Prop := get_offset y <= get_offset x.

(** *** The reading of the specification: spans clamped to the text

    [clamp n i] brings a position into [0, n].  The clamped splice
    replaces the span from the clamped offset to the clamped end, and
    [apply_clamped] is the loop with that splice. *)
Definition clamp (n : Z) (i : Z) : nat := Z.to_nat (Z.max 0 (Z.min i n)).

Definition clamped_splice (text : str) (offset length : Z) (replacement : str) : str :=
  take (clamp (len text) offset) text ++ replacement ++
  drop (clamp (len text) (offset + length)) text.

Definition apply_issue_clamped (text : str) (i : issue) : str :=
  if participates i
  then clamped_splice text (get_offset i) (get_length i) (replacement i)
  else text.

Definition apply_clamped (text : str) (enhanced_issues : list issue) : str :=
  foldl apply_issue_clamped text (sorted_desc enhanced_issues).

(** The spans [offset, offset + length) of two issues share a position. *)
Definition overlap (x y : issue) : Prop :=
  exists k : Z,
    get_offset x <= k < get_offset x + get_length x /\
    get_offset y <= k < get_offset y + get_length y.

End Modify.

(** ** The file validator ([app/services/security.py]) *)

Module Security.

Definition bytes := list byte.

(** A [bytes] literal with printable characters only. *)
Definition b (s : string) : bytes := list_byte_of_string s.

Definition len (content : bytes) : Z := Z.of_nat (length content).

(** [content.startswith(prefix)] *)
Fixpoint startswith (content prefix : bytes) {struct prefix} : bool :=
  match prefix, content with
  | [], _ => true
  | p :: ps, c :: cs => Byte.eqb c p && startswith cs ps
  | _ :: _, [] => false
  end.

(** [pattern in content] on [bytes] *)
Fixpoint bytes_in (pattern content : bytes) : bool :=
  startswith content pattern ||
  match content with
  | [] => false
  | _ :: cs => bytes_in pattern cs
  end.

(** [bytes.lower()]: the ASCII capitals are mapped to small letters, every
    other byte is kept. *)
Definition byte_lower (c : byte) : byte :=
  let n := Byte.to_N c in
  if ((65 <=? n) && (n <=? 90))%N then default c (Byte.of_N (n + 32)) else c.

Definition lower (content : bytes) : bytes := map byte_lower content.

(** [pattern in s] on [str] *)
Fixpoint str_in (pattern s : string) : bool :=
  String.prefix pattern s ||
  match s with
  | EmptyString => false
  | String _ s' => str_in pattern s'
  end.

(** [any(pattern in content_str for pattern in patterns)] *)
Definition any_in (patterns : list string) (content_str : string) : bool :=
  existsb (fun pattern => str_in pattern content_str) patterns.

(** *** [__init__]: the three tables *)

Definition PK (x y : byte) : bytes := [x50; x4b; x; y].

Definition allowed_signatures : list (string * list bytes) :=
  [ ("pdf", [b "%PDF"]);
    ("docx", [PK x03 x04; PK x05 x06; PK x07 x08]) ]%string.

Definition max_file_sizes : list (string * Z) :=
  [ ("pdf", 50 * 1024 * 1024);
    ("docx", 25 * 1024 * 1024) ]%string.

Definition suspicious_patterns : list bytes :=
  [ b "<script"; b "javascript:"; b "vbscript:";
    b "<iframe"; b "<object"; b "<embed" ].

(** [d[key]] guarded by [key in d], for the dictionaries above *)
Fixpoint lookup_key {V : Type} (key : string) (d : list (string * V)) : option V :=
  match d with
  | [] => None
  | (k, v) :: d' => if String.eqb key k then Some v else lookup_key key d'
  end.

(** *** [_get_file_extension]:
    [Path(filename).suffix.lower().lstrip('.')]

    [pathlib] is modelled for POSIX paths: the path is split at the
    slashes, empty and single-dot components are dropped, and [name] is
    the last component left.  [suffix] is the part of [name] from its last
    dot, provided that dot is neither the first nor the last character. *)

Definition chars := list ascii.

Fixpoint split_on (sep : ascii) (s : chars) : list chars :=
  match s with
  | [] => [[]]
  | c :: s' =>
      if Ascii.eqb c sep then [] :: split_on sep s'
      else match split_on sep s' with
           | w :: ws => (c :: w) :: ws
           | [] => [[c]]
           end
  end.

Definition is_dot (c : ascii) : bool := Ascii.eqb c "."%char.

Definition kept_component (x : chars) : bool :=
  match x with
  | [] => false
  | [c] => negb (is_dot c)
  | _ => true
  end.

Definition path_name (filename : chars) : chars :=
  default [] (last (List.filter kept_component (split_on "/"%char filename))).

(** [name.rfind('.')] *)
Fixpoint rfind_dot (name : chars) : Z :=
  match name with
  | [] => -1
  | c :: name' =>
      let r := rfind_dot name' in
      if 0 <=? r then r + 1 else if is_dot c then 0 else -1
  end.

Definition path_suffix (filename : chars) : chars :=
  let name := path_name filename in
  let i := rfind_dot name in
  if (0 <? i) && (i <? Z.of_nat (length name) - 1)
  then PySlice.from name i
  else [].

(** [str.lower()], on the characters of the model *)
Definition char_lower (c : ascii) : ascii :=
  let n := N_of_ascii c in
  if ((65 <=? n) && (n <=? 90))%N then ascii_of_N (n + 32) else c.

(** [s.lstrip('.')] *)
Fixpoint lstrip_dots (s : chars) : chars :=
  match s with
  | c :: s' => if is_dot c then lstrip_dots s' else s
  | [] => []
  end.

Definition _get_file_extension (filename : string) : string :=
  string_of_list_ascii
    (lstrip_dots (map char_lower (path_suffix (list_ascii_of_string filename)))).

(** *** The validation report *)

Record integrity := {
  file_size_valid : bool;
  content_readable : bool;
  structure_valid : bool;
  pdf_structure : option bool;
  docx_structure : option bool
}.

Record analysis := {
  executable_code : bool;
  external_links : bool;
  embedded_objects : bool;
  macro_content : bool
}.

(** The value under ['security_checks']: the empty dictionary, the
    dictionary with the single key ['suspicious_content'], or the three
    diagnostics of an accepted file. *)
Inductive checks :=
  | NoChecks
  | SuspiciousContent (suspicious_found : list string)
  | Diagnostics (file_integrity : integrity) (content_analysis : analysis)
                (risk_score : Z).

Record validation_result := {
  filename : string;
  file_size : Z;
  file_hash : string;
  file_type : string;
  security_checks : checks
}.

Section Validator.

  (** Library functions taken as parameters:
      [hashlib.sha256(content).hexdigest()] and
      [content.decode('utf-8', errors='ignore').lower()]. *)
Variable sha256_hexdigest : bytes -> string.
Variable decode_ignore_lower : bytes -> string.

Definition _detect_file_type (content : bytes) : string :=
    if 4 <=? len content then
      if startswith content (b "%PDF") then "pdf"
      else if startswith content (PK x03 x04) || startswith content (PK x05 x06)
           then "docx"
           else "unknown"
    else "unknown".

Definition _validate_file_signature (content : bytes) (expected_type : string) : bool :=
    match lookup_key expected_type allowed_signatures with
    | None => false
    | Some signatures => existsb (fun signature => startswith content signature) signatures
    end.

  (** The text of one finding: [f"Pattern '{pattern.decode()}' detected"].
      The patterns are ASCII, so decoding them is the identity. *)
Definition finding (pattern : bytes) : string :=
    "Pattern '" +:+ string_of_list_byte pattern +:+ "' detected".

Definition _check_suspicious_content (content : bytes) : list string :=
    let content_lower := lower content in
    map finding
        (List.filter (fun pattern => bytes_in (lower pattern) content_lower)
                     suspicious_patterns).

Definition _validate_extension_match (content : bytes) (extension : string) : bool :=
    let detected_type := _detect_file_type content in
    if String.eqb extension "pdf" && String.eqb detected_type "pdf" then true
    else if String.eqb extension "docx" && String.eqb detected_type "docx" then true
    else false.

  (** [sum(1 for b in content if 32 <= b <= 126) > len(content) * 0.1].
      The product is a floating-point number slightly above the exact
      tenth, and never below it, so that the comparison with the integer
      count agrees with the exact one for every length below 2^53. *)
Definition _is_content_readable (content : bytes) : bool :=
    let printable_chars :=
      Z.of_nat (length (List.filter
        (fun c => let n := Byte.to_N c in ((32 <=? n) && (n <=? 126))%N) content)) in
    len content <? 10 * printable_chars.

Definition _validate_pdf_structure (content : bytes) : bool :=
    let has_header := bytes_in (b "%PDF") content in
    let has_trailer := bytes_in (b "trailer") content || bytes_in (b "startxref") content in
    has_header && has_trailer.

Definition _validate_docx_structure (content : bytes) : bool :=
    let has_pk_header := bytes_in (PK x03 x04) content in
    let has_content_types := bytes_in (b "[Content_Types].xml") content in
    has_pk_header && has_content_types.

Definition _check_file_integrity (content : bytes) : integrity :=
    {| file_size_valid := 0 <? len content;
       content_readable := _is_content_readable content;
       structure_valid := true;
       pdf_structure :=
         if startswith content (b "%PDF")
         then Some (_validate_pdf_structure content) else None;
       docx_structure :=
         if startswith content (b "%PDF") then None
         else if startswith content (b "PK")
              then Some (_validate_docx_structure content) else None |}.

Definition _analyze_content_security (content : bytes) : analysis :=
    let content_str := decode_ignore_lower content in
    {| executable_code := any_in ["<script"; "javascript:"; "vbscript:"] content_str;
       external_links := any_in ["http://"; "https://"; "ftp://"] content_str;
       embedded_objects := any_in ["<object"; "<embed"; "<iframe"] content_str;
       macro_content := any_in ["vba"; "macro"; "vbscript"] content_str |}.

Definition _calculate_risk_score (content : bytes) (file_type : string) : Z :=
    let risk_score := 0 in
    let risk_score :=
      if String.eqb file_type "pdf" then risk_score + 10
      else if String.eqb file_type "docx" then risk_score + 15
      else risk_score in
    let content_analysis := _analyze_content_security content in
    let risk_score :=
      if executable_code content_analysis then risk_score + 40 else risk_score in
    let risk_score :=
      if embedded_objects content_analysis then risk_score + 25 else risk_score in
    let risk_score :=
      if macro_content content_analysis then risk_score + 30 else risk_score in
    let risk_score :=
      if external_links content_analysis then risk_score + 15 else risk_score in
    let risk_score :=
      if 10 * 1024 * 1024 <? len content then risk_score + 10 else risk_score in
    Z.min risk_score 100.

  (** [f"{limit / (1024*1024):.1f}"]: one decimal, rounded to the nearest
      tenth.  Both limits of [max_file_sizes] are whole numbers of MiB, for
      which the rendering is exact. *)
Definition format_mb (limit : Z) : string :=
    let tenths := (limit * 10 + 512 * 1024) / (1024 * 1024) in
    pretty (tenths / 10) +:+ "." +:+ pretty (tenths mod 10).

Definition too_large (limit : Z) : string :=
    "File too large. Maximum size: " +:+ format_mb limit +:+ "MB".

  (** Lines 45-47: the limit that the content exceeds, if the extension
      has a limit and the content exceeds it. *)
Definition oversize (file_content : bytes) (file_extension : string) : option Z :=
    match lookup_key file_extension max_file_sizes with
    | Some limit => if limit <? len file_content then Some limit else None
    | None => None
    end.

Definition validate_file (file_content : bytes) (filename : string)
    : bool * string * validation_result :=
    let report (c : checks) :=
      {| filename := filename;
         file_size := len file_content;
         file_hash := sha256_hexdigest file_content;
         file_type := _detect_file_type file_content;
         security_checks := c |} in
    let validation_result := report NoChecks in
    let file_extension := _get_file_extension filename in
    match oversize file_content file_extension with
    | Some limit => (false, too_large limit, validation_result)
    | None =>
      if negb (_validate_file_signature file_content file_extension) then
        (false, "Invalid file signature detected", validation_result)
      else
        let suspicious_found := _check_suspicious_content file_content in
        match suspicious_found with
        | _ :: _ =>
            (false, "Suspicious content detected in file",
             report (SuspiciousContent suspicious_found))
        | [] =>
            if negb (_validate_extension_match file_content file_extension) then
              (false, "File extension does not match file content", validation_result)
            else
              (true, "File validation passed",
               report
                 (Diagnostics (_check_file_integrity file_content)
                              (_analyze_content_security file_content)
                              (_calculate_risk_score file_content file_extension)))
        end
    end.

  (** *** Vocabulary of the statements *)

  (** [pattern] occurs in [content] when letter case is ignored. *)
Definition occurs_ignoring_case (pattern content : bytes) : Prop :=
    exists before found after : bytes,
      content = before ++ found ++ after /\ lower found = lower pattern.

(** [pattern] occurs in the text [s]. *)
Definition occurs_in (pattern s : string) : Prop :=
  exists before after : string, s = before +:+ pattern +:+ after.

(** One of the patterns occurs in the text [s]. *)
Definition some_occurs (patterns : list string) (s : string) : Prop :=
  exists pattern, In pattern patterns /\ occurs_in pattern s.

End Validator.

End Security.

(** ** The result cache ([app/services/cache.py]) *)

Module Cache.

Definition bytes := list byte.

#[local] Set Warnings "-register-all".

(** A JSON document, as [json.dump] writes and [json.load] returns it.
    The payload handed to the cache is JSON-serialisable by its type. *)
Inductive json :=
  | JNull
  | JBool (v : bool)
  | JNum (v : Z)
  | JStr (v : string)
  | JList (v : list json)
  | JDict (v : list (string * json)).

(** A file of the cache directory: its modification time and the document
    it holds; [None] when [json.load] would reject its contents.  Clock
    readings ([time.time()]) and modification times are whole seconds. *)
Record file := File {
  st_mtime : Z;
  document : option json
}.

(** The cache directory: file name to file. *)
Abbreviation dir := (gmap string file).

(** [s.endswith(suffix)] *)
Fixpoint endswith (s suffix : string) : bool :=
  String.eqb s suffix ||
  match s with
  | EmptyString => false
  | String _ s' => endswith s' suffix
  end.

(** File-system primitives.  [None] is the raised [OSError]. *)
Definition exists_ (fs : dir) (path : string) : bool := bool_decide (is_Some (fs !! path)).
Definition stat (fs : dir) (path : string) : option file := fs !! path.
Definition unlink (fs : dir) (path : string) : option dir :=
  match fs !! path with
  | Some _ => Some (delete path fs)
  | None => None
  end.

(** [cache_dir.glob("*.json")]: the names of the directory that end in
    [.json], in the order the directory lists them. *)
Definition glob_json (fs : dir) : list string :=
  List.filter (fun name => endswith name ".json") (map_to_list fs).*1.

Section DocumentCache.

  (** [hashlib.md5(_).hexdigest()] and [str.encode()] are library
      functions; [max_age_hours] is the constructor's argument. *)
Variable md5_hexdigest : bytes -> string.
Variable encode : string -> bytes.
Variable max_age_hours : Z.

Definition max_age_seconds : Z := max_age_hours * 3600.

Definition _get_cache_key (content : bytes) (filename : string) : string :=
    let content_hash := md5_hexdigest content in
    let filename_hash := md5_hexdigest (encode filename) in
    content_hash +:+ "_" +:+ filename_hash.

Definition _get_cache_path (cache_key : string) : string :=
    cache_key +:+ ".json".

  (** [get]: the result and the directory afterwards.  [now] is the
      reading of [time.time()].  Every exception of the body ends in
      [return None], with the directory as it is at that point. *)
Definition get (now : Z) (content : bytes) (filename : string) (fs : dir)
    : option json * dir :=
    let cache_key := _get_cache_key content filename in
    let cache_path := _get_cache_path cache_key in
    if negb (exists_ fs cache_path) then (None, fs)
    else
      match stat fs cache_path with
      | None => (None, fs)
      | Some st =>
          if max_age_seconds <? now - st_mtime st then
            match unlink fs cache_path with
            | Some fs' => (None, fs')
            | None => (None, fs)
            end
          else
            match document st with
            | Some cached_data => (Some cached_data, fs)
            | None => (None, fs)
            end
      end.

  (** [set]: the file is written at clock reading [now]. *)
Definition set (now : Z) (content : bytes) (filename : string) (data : json)
             (fs : dir) : dir :=
    let cache_key := _get_cache_key content filename in
    let cache_path := _get_cache_path cache_key in
    let cache_data :=
      JDict [("timestamp", JNum now); ("filename", JStr filename); ("data", data)] in
    <[cache_path := File now (Some cache_data)]> fs.

  (** The loop of [clear_expired] over the files still to visit; an
      exception ends the loop with what has been done so far. *)
Fixpoint sweep (current_time : Z) (files : list string) (removed_count : Z) (fs : dir)
    : Z * dir :=
    match files with
    | [] => (removed_count, fs)
    | cache_file :: rest =>
        match stat fs cache_file with
        | None => (removed_count, fs)
        | Some st =>
            if max_age_seconds <? current_time - st_mtime st then
              match unlink fs cache_file with
              | Some fs' => sweep current_time rest (removed_count + 1) fs'
              | None => (removed_count, fs)
              end
            else sweep current_time rest removed_count fs
        end
    end.

Definition clear_expired (now : Z) (fs : dir) : Z * dir :=
    let removed_count := 0 in
    let current_time := now in
    sweep current_time (glob_json fs) removed_count fs.

  (** The same for [clear_all]. *)
Fixpoint flush (files : list string) (removed_count : Z) (fs : dir) : Z * dir :=
    match files with
    | [] => (removed_count, fs)
    | cache_file :: rest =>
        match unlink fs cache_file with
        | Some fs' => flush rest (removed_count + 1) fs'
        | None => (removed_count, fs)
        end
    end.

Definition clear_all (fs : dir) : Z * dir :=
    flush (glob_json fs) 0 fs.

  (** Whether the file called [name] is older than the maximum age. *)
Definition expired (now : Z) (fs : dir) (name : string) : bool :=
    match fs !! name with
    | Some st => max_age_seconds <? now - st_mtime st
    | None => false
    end.

End DocumentCache.

End Cache.

(** ** [os.path] for POSIX paths, as [sanitize_filename] and the
    extractor use it *)

Module OsPath.
Import PySlice.

Definition str := list ascii.

Definition sep : ascii := "/"%char.
Definition extsep : ascii := "."%char.

(** [p.rfind(c)]: the index of the last [c], or -1. *)
Fixpoint rfind (c : ascii) (p : str) : Z :=
  match p with
  | [] => -1
  | x :: p' =>
      let r := rfind c p' in
      if 0 <=? r then r + 1 else if Ascii.eqb x c then 0 else -1
  end.

(** [posixpath.basename]: [i = p.rfind('/') + 1; return p[i:]] *)
Definition basename (p : str) : str :=
  let i := rfind sep p + 1 in
  from p i.

(** [genericpath._splitext]: the extension starts at the last dot,
    provided the dot comes after the last slash and some character between
    that slash and the dot is not a dot (leading dots do not start an
    extension). *)
Definition splitext (p : str) : str * str :=
  let sepIndex := rfind sep p in
  let dotIndex := rfind extsep p in
  if (sepIndex <? dotIndex) &&
     existsb (fun c => negb (Ascii.eqb c extsep)) (slice p (sepIndex + 1) dotIndex)
  then (upto p dotIndex, from p dotIndex)
  else (p, []).

End OsPath.

(** ** [SecurityValidator.sanitize_filename] *)

Module Sanitize.
Import PySlice.

Definition str := list ascii.

(** The characters that are replaced; the fourth is the double quote
    (code 34) and the eighth the backslash (code 92). *)
Definition dangerous_chars : list ascii :=
  [ "<"; ">"; ":"; ascii_of_nat 34; "|"; "?"; "*"; ascii_of_nat 92; "/" ]%char.

(** [s.replace(old, new)] for one-character strings *)
Definition replace (old new : ascii) (s : str) : str :=
  map (fun c => if Ascii.eqb c old then new else c) s.

(** Lines 226-231: the base name with every dangerous character
    replaced by an underscore. *)
Definition cleaned (filename : str) : str :=
  let filename := OsPath.basename filename in
  foldl (fun filename char => replace char "_"%char filename) filename dangerous_chars.

Definition sanitize_filename (filename : str) : str :=
  let filename := cleaned filename in
  if 100 <? len filename then
    let '(name, ext) := OsPath.splitext filename in
    upto name 95 ++ ext
  else filename.

End Sanitize.

(** ** The metrics history ([app/services/performance.py]) *)

Module Performance.
Import PySlice.

Section Metrics.

(** Python's [float], which [add_metrics] only stores. *)
Variable float : Type.

Record PerformanceMetrics := {
  total_time : float;
  extraction_time : float;
  analysis_time : float;
  modification_time : float;
  file_size : Z;
  word_count : Z;
  cache_hit : bool
}.

(** [add_metrics]: the history after the call. *)
Definition add_metrics (metrics_history : list PerformanceMetrics)
           (metrics : PerformanceMetrics) : list PerformanceMetrics :=
  let metrics_history := metrics_history ++ [metrics] in
  if 100 <? len metrics_history then from metrics_history (-100)
  else metrics_history.

End Metrics.

End Performance.

(** ** Grammar issues: the checker, the enrichment and the view of the
    patcher ([checker.py], [context_clarity.py]) *)

Module Issues.

(** One replacement of a match: [getattr(r, "value", r)] is a string or
    something else. *)
Inductive replacement_value :=
  | StrValue (value : string)
  | OtherValue.

(** A match of the grammar engine, with the attributes that [check_text]
    reads. *)
Record Match := {
  m_message : string;
  m_ruleIssueType : option string;
  m_ruleId : option string;
  m_offset : Z;
  m_errorLength : Z;
  m_replacements : list replacement_value;
  m_context : string
}.

(** An issue dictionary: the six keys that [check_text] writes and the
    two that [enhance_grammar_analysis] adds ([None] and [false] while
    they are missing). *)
Record grammar_issue := {
  message : string;
  rule : option string;
  offset : Z;
  length : Z;
  replacements : list string;
  context : string;
  context_improvement : option string;
  enhanced : bool
}.

(** Lines 25-29: the string values among the replacements, in order. *)
Fixpoint string_values (rs : list replacement_value) : list string :=
  match rs with
  | [] => []
  | StrValue value :: rs' => value :: string_values rs'
  | OtherValue :: rs' => string_values rs'
  end.

(** [a or b] on optional strings: [a] unless it is [None] or empty. *)
Definition or_else (a b : option string) : option string :=
  match a with
  | Some (String _ _) => a
  | _ => b
  end.

(** Lines 30-39: the issue built from one match. *)
Definition issue_of (m : Match) : grammar_issue :=
  let repls := string_values (m_replacements m) in
  {| message := m_message m;
     rule := or_else (m_ruleIssueType m) (m_ruleId m);
     offset := m_offset m;
     length := m_errorLength m;
     replacements := take 5 repls;
     context := m_context m;
     context_improvement := None;
     enhanced := false |}.

(** [ComplianceChecker.check_text].  [tool] is [None] when the engine
    could not be created; a call of the engine returns [None] when it
    raises.  The result is the list under ['issues']. *)
Definition check_text (tool : option (string -> option (list Match))) (text : string)
  : list grammar_issue :=
  match tool with
  | None => []
  | Some check =>
      match check text with
      | None => []
      | Some matches => map issue_of matches
      end
  end.

(** Truthiness of a string. *)
Definition nonempty (s : string) : bool :=
  match s with
  | EmptyString => false
  | String _ _ => true
  end.

(** Lines 183-194 of [context_clarity.py]: the copy of one issue, with
    the improvement when there is a context and the service returned a
    non-empty text.  [_get_context_improvement] returns [None] for every
    failure of the service. *)
Definition enhance_issue (_get_context_improvement : string -> string -> option string)
           (issue : grammar_issue) : grammar_issue :=
  let enhanced_issue := issue in
  let context := context issue in
  if nonempty context then
    match _get_context_improvement context (message issue) with
    | Some improvement =>
        if nonempty improvement then
          {| message := message enhanced_issue;
             rule := rule enhanced_issue;
             offset := offset enhanced_issue;
             length := length enhanced_issue;
             replacements := replacements enhanced_issue;
             context := Issues.context enhanced_issue;
             context_improvement := Some improvement;
             enhanced := true |}
        else enhanced_issue
    | None => enhanced_issue
    end
  else enhanced_issue.

(** [ContextClarityAnalyzer.enhance_grammar_analysis]; [enabled] and
    [client] are the two attributes tested at its start. *)
Definition enhance_grammar_analysis (enabled client : bool)
           (_get_context_improvement : string -> string -> option string)
           (issues : list grammar_issue) : list grammar_issue :=
  if negb enabled || negb client then issues
  else map (enhance_issue _get_context_improvement) issues.

(** The four keys that [apply_ai_context_improvements] reads from an
    issue dictionary. *)
Definition to_patch (issue : grammar_issue) : Modify.issue :=
  Modify.Issue (Some (offset issue)) (Some (length issue))
               (list_ascii_of_string <$> context_improvement issue)
               (enhanced issue).

End Issues.

(** ** Text extraction helpers ([app/services/extract.py]) *)

Module Extract.
Import PySlice.

Definition str := list ascii.

(** [str.isspace] on one character, for the code points of the model:
    tab to carriage return, the four separators 28 to 31, the space, and
    133 and 160 of Latin-1.  The class [\s] of [re], [str.split] and
    [str.strip] all use this test. *)
Definition isspace (c : ascii) : bool :=
  let n := N_of_ascii c in
  (((9 <=? n) && (n <=? 13)) || ((28 <=? n) && (n <=? 32)) ||
   (n =? 133) || (n =? 160))%N.

(** The class [[\x00-\x08\x0B\x0C\x0E-\x1F\x7F]] *)
Definition is_control (c : ascii) : bool :=
  let n := N_of_ascii c in
  ((n <=? 8) || (n =? 11) || (n =? 12) || ((14 <=? n) && (n <=? 31)) ||
   (n =? 127))%N.

(** [re.sub(r'[\x00-\x08\x0B\x0C\x0E-\x1F\x7F]', '', text)] *)
Definition remove_controls (text : str) : str :=
  List.filter (fun c => negb (is_control c)) text.

(** [re.sub(r'\s+', ' ', s)]: every maximal run of whitespace becomes
    one space.  [in_run] tells that the character before was whitespace,
    so that the run has been replaced already. *)
Fixpoint collapse (in_run : bool) (s : str) : str :=
  match s with
  | [] => []
  | c :: s' =>
      if isspace c then
        if in_run then collapse true s' else " "%char :: collapse true s'
      else c :: collapse false s'
  end.

(** [s.lstrip()], [s.rstrip()] and [s.strip()] *)
Fixpoint lstrip (s : str) : str :=
  match s with
  | c :: s' => if isspace c then lstrip s' else s
  | [] => []
  end.

Fixpoint rstrip (s : str) : str :=
  match s with
  | [] => []
  | c :: s' =>
      match rstrip s' with
      | [] => if isspace c then [] else [c]
      | r => c :: r
      end
  end.

Definition strip (s : str) : str := rstrip (lstrip s).

Definition clean_extracted_text (text : str) : str :=
  match text with
  | [] => []
  | _ =>
      let cleaned := remove_controls text in
      let cleaned := collapse false cleaned in
      let cleaned := strip cleaned in
      cleaned
  end.

(** [s.split()]: the maximal runs of characters that are not
    whitespace. *)
Fixpoint split (s : str) : list str :=
  match s with
  | [] => []
  | c :: s' =>
      if isspace c then split s'
      else
        match s' with
        | [] => [[c]]
        | c' :: _ =>
            if isspace c' then [c] :: split s'
            else
              match split s' with
              | word :: words => (c :: word) :: words
              | [] => [[c]]
              end
        end
  end.

Definition get_word_count (text : str) : Z :=
  match text with
  | [] => 0
  | _ =>
      let words :=
        List.filter (fun word => match strip word with [] => false | _ => true end)
                    (split text) in
      Z.of_nat (length words)
  end.

(** [' '.join(words)] *)
Fixpoint join_spaces (words : list str) : str :=
  match words with
  | [] => []
  | [word] => word
  | word :: rest => word ++ " "%char :: join_spaces rest
  end.

(** A word: not empty, and without whitespace. *)
Definition is_word (w : str) : Prop :=
  w <> [] /\ Forall (fun c => isspace c = false) w.

(** [SUPPORTED_EXTENSIONS] *)
Definition SUPPORTED_EXTENSIONS : list str :=
  [list_ascii_of_string ".pdf"; list_ascii_of_string ".docx"].

(** [str.lower()] on one character, for the code points of the model:
    the capitals of ASCII and those of Latin-1 (192 to 222 without the
    multiplication sign 215) are 32 below their small letters. *)
Definition char_lower (c : ascii) : ascii :=
  let n := N_of_ascii c in
  if (((65 <=? n) && (n <=? 90)) ||
      ((192 <=? n) && (n <=? 222) && negb (n =? 215)))%N
  then ascii_of_N (n + 32) else c.

(** Line 42 of [extract_text_from_upload]:
    [_, ext = os.path.splitext(filename.lower())] *)
Definition upload_extension (filename : str) : str :=
  (OsPath.splitext (map char_lower filename)).2.

(** Line 43: whether the extension is supported; otherwise the function
    raises the unsupported-type error. *)
Definition supported (filename : str) : bool :=
  existsb (fun e => bool_decide (upload_extension filename = e)) SUPPORTED_EXTENSIONS.

End Extract.

(** * Properties of the text patcher *)

Import Modify.

Section SliceFacts.
Import PySlice.
Context {A : Type}.
Implicit Types s r : list A.

Lemma adjust_le n i : 0 <= n -> (Z.of_nat (adjust n i) <= n).
  Proof. unfold adjust. intros Hn. destruct (Z.ltb_spec i 0); lia. Qed.

Lemma adjust_in_range n i : 0 <= i <= n -> adjust n i = Z.to_nat i.
  Proof. unfold adjust. intros Hi. destruct (Z.ltb_spec i 0); f_equal; lia. Qed.

Lemma adjust_beyond n i : 0 <= n <= i -> adjust n i = Z.to_nat n.
  Proof. unfold adjust. intros Hi. destruct (Z.ltb_spec i 0); f_equal; lia. Qed.

Lemma adjust_length s i : (adjust (len s) i <= length s)%nat.
  Proof. pose proof (adjust_le (len s) i). unfold len in *. lia. Qed.

Lemma upto_in_range s i :
    0 <= i <= len s -> upto s i = take (Z.to_nat i) s.
  Proof. intros Hi. unfold upto. by rewrite adjust_in_range. Qed.

Lemma from_in_range s i :
    0 <= i <= len s -> from s i = drop (Z.to_nat i) s.
  Proof. intros Hi. unfold from. by rewrite adjust_in_range. Qed.

Lemma upto_beyond s i : len s <= i -> upto s i = s.
  Proof.
    intros Hi. unfold upto. rewrite adjust_beyond by (unfold len in *; lia).
    apply take_ge. unfold len. lia.
  Qed.

Lemma from_beyond s i : len s <= i -> from s i = [].
  Proof.
    intros Hi. unfold from. rewrite adjust_beyond by (unfold len in *; lia).
    apply drop_ge. unfold len. lia.
  Qed.

Lemma len_app s r : len (s ++ r) = len s + len r.
  Proof. unfold len. rewrite length_app. lia. Qed.

Lemma len_nonneg s : 0 <= len s.
  Proof. unfold len. lia. Qed.

End SliceFacts.

Section SortFacts.

Lemma insert_desc_head x l :
    Forall (before x) l -> insert_desc x l = x :: l.
  Proof.
    destruct l as [|y l]; [done|]. intros H. apply Forall_cons in H as [H _].
    unfold before in H. simpl. destruct (Z.ltb_spec (get_offset x) (get_offset y)); [lia|done].
  Qed.

Lemma insert_desc_Forall (P : issue -> Prop) x l :
    P x -> Forall P l -> Forall P (insert_desc x l).
  Proof.
    intros Hx. induction 1 as [|y l Hy Hl IH]; simpl.
    - by constructor.
    - destruct (get_offset x <? get_offset y); repeat constructor; done.
  Qed.

Lemma insert_desc_sorted x l :
    StronglySorted before l -> StronglySorted before (insert_desc x l).
  Proof.
    induction 1 as [|y l Hl IH Hy]; simpl.
    - repeat constructor.
    - destruct (Z.ltb_spec (get_offset x) (get_offset y)) as [Hlt|Hge].
      + constructor; [done|]. apply insert_desc_Forall; [|done].
        unfold before. lia.
      + constructor; [by constructor|]. constructor; [done|].
        eapply Forall_impl; [exact Hy|]. unfold before. intros z Hz. lia.
  Qed.

Lemma sorted_desc_sorted l : StronglySorted before (sorted_desc l).
  Proof.
    induction l as [|x l IH]; simpl; [constructor|]. by apply insert_desc_sorted.
  Qed.

Lemma filter_Forall (P : issue -> Prop) (p : issue -> bool) l :
    Forall P l -> Forall P (List.filter p l).
  Proof.
    induction 1 as [|y l Hy Hl IH]; simpl; [constructor|].
    destruct (p y); [by constructor|done].
  Qed.

  (** Filtering commutes with the insertion into a sorted list. *)
Lemma filter_insert_desc (p : issue -> bool) x l :
    StronglySorted before l ->
    List.filter p (insert_desc x l) =
    if p x then insert_desc x (List.filter p l) else List.filter p l.
  Proof.
    induction 1 as [|y l Hl IH Hy]; simpl.
    - by destruct (p x).
    - destruct (Z.ltb_spec (get_offset x) (get_offset y)) as [Hlt|Hge]; simpl.
      + rewrite IH. destruct (p x), (p y); simpl; try done.
        destruct (Z.ltb_spec (get_offset x) (get_offset y)); [done|lia].
      + destruct (p x) eqn:Hx; [|done].
        symmetry. apply insert_desc_head.
        assert (Forall (before x) (y :: l)) as Hall.
        { constructor; [done|]. eapply Forall_impl; [exact Hy|].
          unfold before. intros z Hz. lia. }
        change (Forall (before x) (List.filter p (y :: l))).
        by apply filter_Forall.
  Qed.

Lemma filter_sorted_desc (p : issue -> bool) l :
    List.filter p (sorted_desc l) = sorted_desc (List.filter p l).
  Proof.
    induction l as [|x l IH]; simpl; [done|].
    rewrite filter_insert_desc by apply sorted_desc_sorted.
    rewrite IH. by destruct (p x).
  Qed.

  (** Issues that do not take part leave the loop's result alone. *)
Lemma foldl_apply_filter text l :
    foldl apply_issue text l = foldl apply_issue text (List.filter participates l).
  Proof.
    revert text. induction l as [|x l IH]; intros text; simpl; [done|].
    unfold apply_issue at 2. destruct (participates x) eqn:Hx; simpl.
    - rewrite IH. f_equal. unfold apply_issue. by rewrite Hx.
    - apply IH.
  Qed.

Lemma apply_as_fold text issues :
    apply_ai_context_improvements text issues =
    foldl apply_issue text (sorted_desc issues).
  Proof. by destruct issues. Qed.

End SortFacts.

Section PatcherFacts.
Import PySlice.

Lemma items_inside (s : str) lo hi :
    (hi <= length s)%nat -> items s lo hi = Some (take (hi - lo) (drop lo s)).
  Proof.
    intros H. unfold items.
    destruct (Nat.leb_spec hi lo) as [Hle|Hlt].
    - by replace (hi - lo)%nat with 0%nat by lia.
    - destruct (Nat.leb_spec hi (length s)); [done|lia].
  Qed.

Lemma upto_checked_ok (s : str) i : upto_checked s i = Some (upto s i).
  Proof.
    unfold upto_checked. rewrite items_inside by apply adjust_length.
    unfold upto. simpl. by rewrite Nat.sub_0_r.
  Qed.

Lemma from_checked_ok (s : str) i : from_checked s i = Some (from s i).
  Proof.
    unfold from_checked. rewrite items_inside by done.
    unfold from. f_equal. apply take_ge. rewrite length_drop. lia.
  Qed.

Lemma slice_checked_ok (s : str) lo hi : slice_checked s lo hi = Some (slice s lo hi).
  Proof. unfold slice_checked. by rewrite items_inside by apply adjust_length. Qed.

Lemma replacement_of_checked_ok improvement :
    replacement_of_checked improvement = Some (replacement_of improvement).
  Proof.
    unfold replacement_of_checked, replacement_of.
    destruct (_ && _); [apply slice_checked_ok|done].
  Qed.

Lemma apply_issue_checked_ok text i :
    apply_issue_checked text i = Some (apply_issue text i).
  Proof.
    unfold apply_issue_checked, apply_issue. destruct (participates i); [|done].
    rewrite slice_checked_ok, replacement_of_checked_ok, upto_checked_ok, from_checked_ok.
    done.
  Qed.

Lemma foldl_checked_ok l text :
    foldl (fun improved_text i => improved_text ≫= fun t => apply_issue_checked t i)
          (Some text) l
    = Some (foldl apply_issue text l).
  Proof.
    revert text. induction l as [|i l IH]; intros text; simpl; [done|].
    rewrite apply_issue_checked_ok. apply IH.
  Qed.

  (** A span that starts at or after the end of the text is clamped to
      the end: the replacement is appended. *)
Lemma splice_beyond (text : str) offset length r :
    len text <= offset -> 0 <= length -> splice text offset length r = text ++ r.
  Proof.
    intros Ho Hl. unfold splice.
    rewrite upto_beyond by done. rewrite from_beyond by lia. by rewrite app_nil_r.
  Qed.

  (** Quote stripping on an improvement that is wrapped in a pair. *)
Lemma replacement_of_wrapped (s : str) :
    replacement_of (quote :: s ++ [quote]) = s.
  Proof.
    assert (last (quote :: s ++ [quote]) = Some quote) as Hlast
      by (rewrite app_comm_cons; apply last_snoc).
    unfold replacement_of, startswith_quote, endswith_quote.
    rewrite Hlast, Ascii.eqb_refl. simpl andb. cbv iota.
    unfold slice, len. simpl length. rewrite length_app. simpl length.
    rewrite (adjust_in_range _ 1) by lia.
    unfold adjust. destruct (Z.ltb_spec (-1) 0); [|lia].
    replace (Z.to_nat (Z.max (-1 + Z.of_nat (S (length s + 1))) 0) - Z.to_nat 1)%nat
      with (length s) by lia.
    change (Z.to_nat 1) with 1%nat. simpl drop. rewrite drop_0.
    by rewrite take_app_length.
  Qed.

  (** An improvement that is not wrapped is used as it is. *)
Lemma replacement_of_plain (s : str) :
    startswith_quote s = false \/ endswith_quote s = false ->
    replacement_of s = s.
  Proof. unfold replacement_of. by intros [-> | ->]; rewrite ?andb_false_r. Qed.

End PatcherFacts.

Section PatcherClaims.
Import PySlice.

  (** Two replacements on disjoint spans, the lower one inside the text,
      applied from the higher offset down. *)
Lemma splice_two (text : str) oa la ra ob lb rb :
    0 <= oa -> 0 <= la -> oa + la <= ob -> oa + la <= len text ->
    splice (splice text ob lb rb) oa la ra =
    upto text oa ++ ra ++ slice text (oa + la) ob ++ rb ++ from text (ob + lb).
  Proof.
    intros Hoa Hla Hab Hin.
    pose proof (len_nonneg text) as Hn.
    unfold splice at 1.
    set (t2 := splice text ob lb rb).
    set (m := adjust (len text) ob).
    assert (Z.to_nat (oa + la) <= m)%nat as Hm.
    { subst m. unfold adjust. destruct (Z.ltb_spec ob 0); lia. }
    assert (m <= length text)%nat as Hmn by apply adjust_length.
    assert (t2 = take m text ++ rb ++ from text (ob + lb)) as Ht2 by done.
    assert (length (take m text) = m) as Hlen by (by apply length_take_le).
    assert (Z.of_nat m <= len t2) as Hlt2.
    { rewrite Ht2, len_app. unfold len at 1. rewrite Hlen.
      pose proof (len_nonneg (rb ++ from text (ob + lb))). lia. }
    rewrite (upto_in_range t2) by lia.
    rewrite (from_in_range t2) by lia.
    rewrite (upto_in_range text) by lia.
    rewrite Ht2.
    rewrite take_app_le by lia.
    rewrite take_take.
    replace (Z.to_nat oa `min` m)%nat with (Z.to_nat oa) by lia.
    rewrite drop_app_le by lia.
    unfold slice. fold m.
    rewrite (adjust_in_range (len text) (oa + la)) by lia.
    rewrite take_drop_commute.
    replace (Z.to_nat (oa + la) + (m - Z.to_nat (oa + la)))%nat with m by lia.
    done.
  Qed.

  (** C5 (as amended).  For two issues that both carry a non-empty
      improvement and the enhanced marker, with distinct, non-negative
      offsets, non-negative lengths, the lower span ending at or before
      the higher offset and inside the text: both input orders give the
      same text, namely the original text with each span replaced at its
      original position. *)
Theorem two_issues_any_order (text : str) (a b : issue) :
    participates a = true -> participates b = true ->
    0 <= get_offset a -> 0 <= get_length a -> 0 <= get_length b ->
    get_offset a < get_offset b ->
    get_offset a + get_length a <= get_offset b ->
    get_offset a + get_length a <= len text ->
    let patched :=
      upto text (get_offset a) ++ replacement a ++
      slice text (get_offset a + get_length a) (get_offset b) ++
      replacement b ++ from text (get_offset b + get_length b) in
    apply_ai_context_improvements text [a; b] = patched /\
    apply_ai_context_improvements text [b; a] = patched.
  Proof.
    intros Ha Hb Hoa Hla Hlb Hlt Hdis Hin patched.
    assert (sorted_desc [a; b] = [b; a]) as Hab.
    { simpl. destruct (Z.ltb_spec (get_offset a) (get_offset b)); [done|lia]. }
    assert (sorted_desc [b; a] = [b; a]) as Hba.
    { simpl. destruct (Z.ltb_spec (get_offset b) (get_offset a)); [lia|done]. }
    rewrite !apply_as_fold, Hab, Hba. simpl foldl.
    unfold apply_issue. rewrite Ha, Hb. cbv zeta.
    split; by apply splice_two.
  Qed.

  (** C6.  An empty issue list leaves the text unchanged; issues without
      a non-empty improvement or without the enhanced marker are skipped:
      the result is that of the list without them, and a list made of such
      issues only leaves the text unchanged. *)
Theorem skipped_issues_leave_text (text : str) (issues : list issue) :
    apply_ai_context_improvements text [] = text /\
    apply_ai_context_improvements text issues =
      apply_ai_context_improvements text (List.filter participates issues) /\
    apply_ai_context_improvements text
      (List.filter (fun i => negb (participates i)) issues) = text.
  Proof.
    assert (forall l, apply_ai_context_improvements text l =
              apply_ai_context_improvements text (List.filter participates l)) as Hskip.
    { intros l. rewrite !apply_as_fold, <- filter_sorted_desc.
      apply foldl_apply_filter. }
    split; [done|]. split; [apply Hskip|].
    rewrite Hskip.
    replace (List.filter participates
               (List.filter (fun i => negb (participates i)) issues)) with (@nil issue);
      [done|].
    induction issues as [|i l IH]; simpl; [done|].
    destruct (participates i) eqn:Hi; simpl; [done|]. by rewrite Hi.
  Qed.

  (** C7 (the code at the failing input).  An improvement that consists of
      one double quote character is not wrapped in a pair of quotes, yet
      the code strips it to the empty string: the span is deleted instead
      of being replaced by the quote character. *)
Theorem lone_quote_is_stripped :
    replacement_of [quote] = [] /\
    apply_ai_context_improvements (str_of "abc")
      [Issue (Some 0) (Some 1) (Some [quote]) true] = str_of "bc".
  Proof. split; reflexivity. Qed.

Lemma adjust_clamp (n i : Z) : 0 <= i -> adjust n i = clamp n i.
Proof. intros Hi. unfold adjust, clamp. destruct (Z.ltb_spec i 0); lia. Qed.

Lemma apply_issue_clamped_eq (text : str) (i : issue) :
  0 <= get_offset i -> 0 <= get_length i ->
  apply_issue text i = apply_issue_clamped text i.
Proof.
  intros Ho Hl. unfold apply_issue, apply_issue_clamped.
  destruct (participates i); [|done]. cbv zeta.
  unfold splice, clamped_splice, upto, from, replacement.
  by rewrite !adjust_clamp by lia.
Qed.

Lemma sorted_desc_Forall (P : issue -> Prop) (l : list issue) :
  Forall P l -> Forall P (sorted_desc l).
Proof.
  induction 1 as [|x l Hx Hl IH]; [constructor|].
  cbn [sorted_desc]. by apply insert_desc_Forall.
Qed.

Lemma foldl_clamped_eq (l : list issue) :
  Forall (fun i => 0 <= get_offset i /\ 0 <= get_length i) l ->
  forall text, foldl apply_issue text l = foldl apply_issue_clamped text l.
Proof.
  induction 1 as [|i l [Ho Hl] Hall IH]; intros text; [done|].
  cbn [foldl]. by rewrite apply_issue_clamped_eq, IH.
Qed.

(** C8 (as amended).  Whatever the offsets and lengths are, the loop
    never reads outside the text: with every sequence access checked it
    runs through and computes the text of
    [apply_ai_context_improvements].  When every offset and every length
    is non-negative, the spans are clamped to the text: the result is
    that of the loop in which offset and end of each span are cut to the
    length of the text; so a span that starts at or beyond the end
    appends its replacement. *)
Theorem never_faults_and_clamps_forward_spans (text : str) (issues : list issue) :
  apply_checked text issues = Some (apply_ai_context_improvements text issues) /\
  (Forall (fun i => 0 <= get_offset i /\ 0 <= get_length i) issues ->
   apply_ai_context_improvements text issues = apply_clamped text issues) /\
  forall (beyond length : nat) (c : ascii) (improvement : str),
    apply_ai_context_improvements text
      [Issue (Some (len text + Z.of_nat beyond)) (Some (Z.of_nat length))
             (Some (c :: improvement)) true]
    = text ++ replacement_of (c :: improvement).
Proof.
  split; [|split].
  - destruct issues as [|i l]; [done|].
    unfold apply_checked, apply_ai_context_improvements.
    apply foldl_checked_ok.
  - intros Hall. rewrite apply_as_fold. unfold apply_clamped.
    apply foldl_clamped_eq. by apply sorted_desc_Forall.
  - intros beyond length c improvement.
    rewrite apply_as_fold. cbn [sorted_desc insert_desc foldl].
    unfold apply_issue, participates, truthy_improvement, get_offset, get_length.
    cbn [context_improvement enhanced offset length_ andb default].
    unfold id. apply splice_beyond; lia.
Qed.

End PatcherClaims.

(** * Properties of the file validator *)

Section BytesFacts.
Import Security.

Lemma startswith_app (prefix rest : bytes) : startswith (prefix ++ rest) prefix = true.
  Proof.
    induction prefix as [|p ps IH]; simpl; [done|].
    rewrite byte_dec_lb by reflexivity. exact IH.
  Qed.

Lemma startswith_inv (content prefix : bytes) :
    startswith content prefix = true -> exists rest, content = prefix ++ rest.
  Proof.
    revert content. induction prefix as [|p ps IH]; intros content H.
    - by exists content.
    - destruct content as [|c cs]; simpl in H; [done|].
      apply andb_prop in H as [Hc Hcs]. apply byte_dec_bl in Hc as ->.
      destruct (IH _ Hcs) as [rest ->]. by exists rest.
  Qed.

Lemma bytes_in_head (pattern content : bytes) :
    startswith content pattern = true -> bytes_in pattern content = true.
  Proof. intros H. destruct content; simpl; by rewrite H. Qed.

Lemma bytes_in_app (pattern before after : bytes) :
    bytes_in pattern (before ++ pattern ++ after) = true.
  Proof.
    induction before as [|c cs IH].
    - rewrite app_nil_l. apply bytes_in_head, startswith_app.
    - simpl. rewrite IH. apply orb_true_r.
  Qed.

Lemma lower_app (x y : bytes) : lower (x ++ y) = lower x ++ lower y.
  Proof. apply map_app. Qed.

Lemma occurs_bytes_in (pattern content : bytes) :
    occurs_ignoring_case pattern content ->
    bytes_in (lower pattern) (lower content) = true.
  Proof.
    intros (before & found & after & -> & Hfound).
    rewrite !lower_app, Hfound. apply bytes_in_app.
  Qed.

Lemma len_cons4 (c0 c1 c2 c3 : byte) (rest : bytes) :
    (4 <=? Security.len (c0 :: c1 :: c2 :: c3 :: rest)) = true.
  Proof. unfold Security.len. simpl length. apply Z.leb_le. lia. Qed.

End BytesFacts.

Section ValidatorClaims.
Import Security.

Variable sha256_hexdigest : bytes -> string.
Variable decode_ignore_lower : bytes -> string.

Abbreviation validate := (validate_file sha256_hexdigest decode_ignore_lower).
Abbreviation analyze := (_analyze_content_security decode_ignore_lower).

  (** Content with the PDF signature: what the sniffer and the two
      signature tables say about it. *)
Lemma pdf_signature_facts (content : bytes) :
    startswith content (b "%PDF") = true ->
    _detect_file_type content = "pdf" /\
    _validate_file_signature content "pdf" = true /\
    _validate_file_signature content "docx" = false.
  Proof.
    intros H. apply startswith_inv in H as [rest ->].
    change (b "%PDF" ++ rest) with (x25 :: x50 :: x44 :: x46 :: rest).
    unfold _detect_file_type. rewrite len_cons4. by vm_compute.
  Qed.

  (** The same for content that starts with the third ZIP marker. *)
Lemma pk0708_signature_facts (content : bytes) :
    startswith content (PK x07 x08) = true ->
    _detect_file_type content = "unknown" /\
    _validate_file_signature content "docx" = true.
  Proof.
    intros H. apply startswith_inv in H as [rest ->].
    change (PK x07 x08 ++ rest) with (x50 :: x4b :: x07 :: x08 :: rest).
    unfold _detect_file_type. rewrite len_cons4. by vm_compute.
  Qed.

  (** The extensions that the last gate lets through. *)
Lemma extension_match_inv (content : bytes) (extension : string) :
    _validate_extension_match content extension = true ->
    (extension = "pdf" \/ extension = "docx") /\
    _detect_file_type content = extension.
  Proof.
    unfold _validate_extension_match. intros H.
    destruct (String.eqb_spec extension "pdf") as [Hp|Hp];
      destruct (String.eqb_spec (_detect_file_type content) "pdf") as [Hd|Hd];
      simpl in H; try (split; [by left|congruence]);
      destruct (String.eqb_spec extension "docx") as [Hx|Hx];
      destruct (String.eqb_spec (_detect_file_type content) "docx") as [Hy|Hy];
      simpl in H; try discriminate; (split; [by right|congruence]).
  Qed.

  (** C2 (as amended).  Content that starts with the PDF signature, is
      within the PDF size limit and has no denylisted substring is
      accepted under a name whose extension is [pdf]; under a name whose
      extension is [docx] it is rejected, for its size when it exceeds the
      DOCX limit and otherwise for an invalid signature. *)
Theorem pdf_content_by_extension (content : bytes) (pdf_name docx_name : string) :
    startswith content (b "%PDF") = true ->
    len content <= 50 * 1024 * 1024 ->
    _check_suspicious_content content = [] ->
    _get_file_extension pdf_name = "pdf" ->
    _get_file_extension docx_name = "docx" ->
    ((validate content pdf_name).1.1 = true /\
     (validate content pdf_name).1.2 = "File validation passed") /\
    ((validate content docx_name).1.1 = false /\
     (validate content docx_name).1.2 =
       if 25 * 1024 * 1024 <? len content
       then "File too large. Maximum size: 25.0MB"
       else "Invalid file signature detected").
  Proof.
    intros Hsig Hsize Hclean Hpdf Hdocx.
    destruct (pdf_signature_facts content Hsig) as (Htype & Hs1 & Hs2).
    unfold validate_file. rewrite Hpdf, Hdocx. unfold oversize.
    cbn [lookup_key max_file_sizes String.eqb Ascii.eqb Bool.eqb].
    rewrite Hs1, Hs2, Hclean. unfold _validate_extension_match. rewrite Htype.
    destruct (Z.ltb_spec (50 * 1024 * 1024) (len content)); [lia|].
    split; [done|].
    by destruct (25 * 1024 * 1024 <? len content).
  Qed.


Lemma prefix_iff (pattern s : string) :
  String.prefix pattern s = true <-> exists after, s = pattern +:+ after.
Proof.
  revert s. induction pattern as [|a pattern IH]; intros s.
  - split; [|by destruct s]. intros _. by exists s.
  - destruct s as [|c s]; cbn [String.prefix].
    + split; [done|]. by intros [after H].
    + destruct (ascii_dec a c) as [->|Hne].
      * rewrite IH. split; intros [after H]; exists after.
        -- by rewrite H.
        -- by injection H.
      * split; [done|]. intros [after H]. injection H as H _. congruence.
Qed.

Lemma str_in_iff (pattern s : string) :
  str_in pattern s = true <-> occurs_in pattern s.
Proof.
  induction s as [|c s IH]; cbn [str_in].
  - rewrite orb_false_r, prefix_iff. split.
    + intros [after H]. by exists EmptyString, after.
    + intros (before & after & H). destruct before; [|done]. by exists after.
  - rewrite orb_true_iff, prefix_iff, IH. split.
    + intros [[after H] | (before & after & H)].
      * by exists EmptyString, after.
      * exists (String c before), after. by rewrite H.
    + intros (before & after & H). destruct before as [|c' before].
      * left. by exists after.
      * right. injection H as _ H. by exists before, after.
Qed.

Lemma any_in_iff (patterns : list string) (s : string) :
  any_in patterns s = true <-> some_occurs patterns s.
Proof.
  unfold any_in, some_occurs. rewrite existsb_exists.
  split; intros (pattern & Hin & H); exists pattern; (split; [done|]);
    by apply str_in_iff.
Qed.

(** C9.  For an accepted file the recorded risk score is the base score
    of its type (10 for PDF, 15 for DOCX), plus 40 when one of the
    executable-code markers occurs in the decoded, lower-cased content,
    plus 25 for an embedded-object marker, plus 30 for a macro keyword,
    plus 15 for an external-link scheme, plus 10 above 10 MiB, capped at
    100; it lies between 0 and 100. *)
Theorem risk_score_formula (content : bytes) (name reason : string)
        (report : validation_result) :
  validate content name = (true, reason, report) ->
  exists (base : Z) (checked : integrity),
    let content_str := decode_ignore_lower content in
    let found := analyze content in
    let score :=
      Z.min (base
             + (if executable_code found then 40 else 0)
             + (if embedded_objects found then 25 else 0)
             + (if macro_content found then 30 else 0)
             + (if external_links found then 15 else 0)
             + (if 10 * 1024 * 1024 <? len content then 10 else 0)) 100 in
    security_checks report = Diagnostics checked found score /\
    file_type report = _get_file_extension name /\
    (file_type report = "pdf" /\ base = 10 \/
     file_type report = "docx" /\ base = 15) /\
    (executable_code found = true <->
       some_occurs ["<script"; "javascript:"; "vbscript:"] content_str) /\
    (embedded_objects found = true <->
       some_occurs ["<object"; "<embed"; "<iframe"] content_str) /\
    (macro_content found = true <->
       some_occurs ["vba"; "macro"; "vbscript"] content_str) /\
    (external_links found = true <->
       some_occurs ["http://"; "https://"; "ftp://"] content_str) /\
    0 <= score <= 100.
Proof.
  unfold validate_file. intros H.
  destruct (oversize _ _); [done|].
  destruct (_validate_file_signature _ _); [|done]. cbn [negb] in H.
  destruct (_check_suspicious_content _); [|done].
  destruct (_validate_extension_match _ _) eqn:Hmatch; [|done]. cbn [negb] in H.
  apply extension_match_inv in Hmatch as [Hext Htype].
  injection H as _ <-. cbn [security_checks file_type].
  rewrite Htype.
  assert (forall base : Z, base = 10 \/ base = 15 ->
            0 <= Z.min (base
                   + (if executable_code (analyze content) then 40 else 0)
                   + (if embedded_objects (analyze content) then 25 else 0)
                   + (if macro_content (analyze content) then 30 else 0)
                   + (if external_links (analyze content) then 15 else 0)
                   + (if 10 * 1024 * 1024 <? len content then 10 else 0)) 100
            <= 100) as Hrange.
  { intros base Hb.
    destruct (executable_code (analyze content)),
             (embedded_objects (analyze content)),
             (macro_content (analyze content)),
             (external_links (analyze content)),
             (10 * 1024 * 1024 <? len content); lia. }
  assert (_calculate_risk_score decode_ignore_lower content (_get_file_extension name) =
          Z.min ((if String.eqb (_get_file_extension name) "pdf" then 10
                  else if String.eqb (_get_file_extension name) "docx" then 15 else 0)
                 + (if executable_code (analyze content) then 40 else 0)
                 + (if embedded_objects (analyze content) then 25 else 0)
                 + (if macro_content (analyze content) then 30 else 0)
                 + (if external_links (analyze content) then 15 else 0)
                 + (if 10 * 1024 * 1024 <? len content then 10 else 0)) 100) as Hscore.
  { unfold _calculate_risk_score.
    destruct (String.eqb (_get_file_extension name) "pdf"),
             (String.eqb (_get_file_extension name) "docx"),
             (executable_code (analyze content)),
             (embedded_objects (analyze content)),
             (macro_content (analyze content)),
             (external_links (analyze content)),
             (10 * 1024 * 1024 <? len content); reflexivity. }
  rewrite Hscore.
  destruct Hext as [E | E]; rewrite E; [exists 10 | exists 15];
    exists (_check_file_integrity content); cbv zeta;
    cbn [String.eqb Ascii.eqb Bool.eqb];
    (split; [reflexivity|]); (split; [reflexivity|]); (split; [tauto|]);
    unfold _analyze_content_security;
    cbn [executable_code embedded_objects macro_content external_links];
    (split; [apply any_in_iff|]); (split; [apply any_in_iff|]);
    (split; [apply any_in_iff|]); (split; [apply any_in_iff|]);
    apply Hrange; tauto.
Qed.

  (** C10.  Content that starts with the third ZIP marker passes the
      signature check for [docx], but the sniffer does not know the marker,
      so extension and content never agree: such a file is never accepted
      under a name whose extension is [docx]. *)
Theorem pk0708_docx_never_accepted (content : bytes) (name : string) :
    startswith content (PK x07 x08) = true ->
    _get_file_extension name = "docx" ->
    _validate_file_signature content "docx" = true /\
    _detect_file_type content = "unknown" /\
    _validate_extension_match content "docx" = false /\
    (validate content name).1.1 = false.
  Proof.
    intros Hsig Hext.
    destruct (pk0708_signature_facts content Hsig) as (Htype & Hs).
    assert (_validate_extension_match content "docx" = false) as Hmatch
      by (unfold _validate_extension_match; by rewrite Htype).
    repeat split; try done.
    unfold validate_file. rewrite Hext, Hs, Hmatch.
    destruct (oversize _ _); [done|]. cbn [negb].
    by destruct (_check_suspicious_content _).
  Qed.

End ValidatorClaims.

(** * Properties of the result cache *)

Section DirectoryFacts.
Import Cache.

Lemma endswith_refl (s : string) : endswith s s = true.
Proof. destruct s; cbn [endswith]; by rewrite String.eqb_refl. Qed.

Lemma endswith_append (s suffix : string) : endswith (s +:+ suffix) suffix = true.
Proof.
  induction s as [|c s IH].
  - apply endswith_refl.
  - change (String c s +:+ suffix) with (String c (s +:+ suffix)).
    cbn [endswith]. rewrite IH. apply orb_true_r.
Qed.

Lemma elem_of_bfilter {A} (f : A -> bool) (l : list A) (x : A) :
  x ∈ List.filter f l <-> x ∈ l /\ f x = true.
Proof. rewrite !list_elem_of_In. apply filter_In. Qed.

Lemma NoDup_bfilter {A} (f : A -> bool) (l : list A) :
  NoDup l -> NoDup (List.filter f l).
Proof. rewrite !NoDup_ListNoDup. apply List.NoDup_filter. Qed.

Lemma bfilter_ext {A} (f g : A -> bool) (l : list A) :
  (forall x, x ∈ l -> f x = g x) -> List.filter f l = List.filter g l.
Proof.
  intros H. apply filter_ext_in. intros x Hx. apply H. by apply list_elem_of_In.
Qed.

(** The names that [glob] yields are distinct names of the directory. *)
Lemma elem_of_glob_json (fs : dir) (name : string) :
  name ∈ glob_json fs <-> is_Some (fs !! name) /\ endswith name ".json" = true.
Proof.
  unfold glob_json. rewrite elem_of_bfilter, list_elem_of_fmap.
  split.
  - intros [([name' st] & -> & Hin) Hend]. apply elem_of_map_to_list in Hin.
    split; [by exists st|done].
  - intros [[st Hst] Hend]. split; [|done].
    exists (name, st). split; [done|]. by apply elem_of_map_to_list.
Qed.

Lemma NoDup_glob_json (fs : dir) : NoDup (glob_json fs).
Proof. apply NoDup_bfilter, NoDup_fst_map_to_list. Qed.

End DirectoryFacts.

Section SweepFacts.
Import Cache.

Variable max_age_hours : Z.

Lemma expired_delete_ne now (fs : dir) (x y : string) :
  x <> y -> expired max_age_hours now (delete x fs) y = expired max_age_hours now fs y.
Proof. intros H. unfold expired. by rewrite lookup_delete_ne. Qed.

(** The loop of [clear_expired] on distinct names of existing files:
    it counts and removes exactly the expired ones. *)
Lemma sweep_spec now (names : list string) :
  forall (n : Z) (fs : dir),
    NoDup names ->
    (forall x, x ∈ names -> is_Some (fs !! x)) ->
    (sweep max_age_hours now names n fs).1 =
      n + Z.of_nat (length (List.filter (expired max_age_hours now fs) names)) /\
    (forall p, p ∈ names -> expired max_age_hours now fs p = true ->
               (sweep max_age_hours now names n fs).2 !! p = None) /\
    (forall p, p ∉ names \/ expired max_age_hours now fs p = false ->
               (sweep max_age_hours now names n fs).2 !! p = fs !! p).
Proof.
  induction names as [|x rest IH]; intros n fs Hnd Hex.
  - simpl. split; [lia|]. split; [|done]. intros p Hp. by apply elem_of_nil in Hp.
  - apply NoDup_cons in Hnd as [Hx Hrest].
    destruct (Hex x) as [st Hst]; [by left|].
    assert (forall y, y ∈ rest -> x <> y) as Hne by (intros y Hy ->; done).
    cbn [sweep]. unfold stat, unlink. rewrite Hst.
    assert (expired max_age_hours now fs x = (max_age_seconds max_age_hours <? now - st_mtime st))
      as Hexp by (unfold expired; by rewrite Hst).
    cbn [List.filter]. rewrite Hexp.
    destruct (max_age_seconds max_age_hours <? now - st_mtime st) eqn:Hold.
    + destruct (IH (n + 1) (delete x fs) Hrest) as (Hcount & Hgone & Hkept).
      { intros y Hy. rewrite lookup_delete_ne by auto. apply Hex. by right. }
      rewrite (bfilter_ext (expired max_age_hours now (delete x fs))
                           (expired max_age_hours now fs)) in Hcount
        by (intros y Hy; apply expired_delete_ne; auto).
      split; [|split].
      * rewrite Hcount. simpl length. lia.
      * intros p Hp Hpe. apply elem_of_cons in Hp as [-> | Hp].
        -- rewrite Hkept by (by left). apply lookup_delete_eq.
        -- apply Hgone; [done|]. rewrite expired_delete_ne by auto. done.
      * intros p Hp.
        assert (x <> p) as Hxp.
        { intros <-. destruct Hp as [Hp | Hp].
          - apply Hp. by left.
          - rewrite Hexp in Hp. done. }
        rewrite Hkept.
        -- by apply lookup_delete_ne.
        -- destruct Hp as [Hp | Hp].
           ++ left. intros Hin. apply Hp. by right.
           ++ right. by rewrite expired_delete_ne.
    + destruct (IH n fs Hrest) as (Hcount & Hgone & Hkept).
      { intros y Hy. apply Hex. by right. }
      split; [done|split].
      * intros p Hp Hpe. apply elem_of_cons in Hp as [-> | Hp].
        -- rewrite Hexp in Hpe. done.
        -- by apply Hgone.
      * intros p Hp. apply Hkept. destruct Hp as [Hp | Hp]; [|by right].
        left. intros Hin. apply Hp. by right.
Qed.

End SweepFacts.

Section CacheClaims.
Import Cache.

Variable md5_hexdigest : bytes -> string.
Variable encode : string -> bytes.
Variable max_age_hours : Z.

Abbreviation cache_get := (get md5_hexdigest encode max_age_hours).
Abbreviation cache_set := (set md5_hexdigest encode).
Abbreviation path_of content filename :=
  (_get_cache_path (_get_cache_key md5_hexdigest encode content filename)).
Abbreviation max_age := (max_age_seconds max_age_hours).
Abbreviation is_expired := (expired max_age_hours).

(** C1 (as amended).  A lookup for the same content and file name, made
    while the age of the entry does not exceed the maximum age, returns
    the record that the store operation wrote: the time of the write, the
    file name and, under the key [data], the payload that was stored.  The
    lookup leaves the directory as it is. *)
Theorem store_then_lookup (now now' : Z) (content : bytes) (filename : string)
        (data : json) (fs : dir) :
  now' - now <= max_age ->
  cache_get now' content filename (cache_set now content filename data fs) =
    (Some (JDict [("timestamp", JNum now); ("filename", JStr filename); ("data", data)]),
     cache_set now content filename data fs).
Proof.
  intros Hage. unfold get, set, exists_, stat.
  rewrite lookup_insert_eq.
  rewrite bool_decide_eq_true_2 by eauto. cbn [negb st_mtime document].
  destruct (Z.ltb_spec max_age (now' - now)); [lia|done].
Qed.

(** C3.  For an entry whose age exceeds the maximum age: a lookup for its
    content and file name returns nothing and deletes the file of the
    entry; a sweep for expired entries deletes that file as well, and the
    count it returns is the number of expired cache files, of which this
    entry is one. *)
Theorem expired_entry_reclaimed (now : Z) (content : bytes) (filename : string)
        (fs : dir) (entry : file) :
  fs !! path_of content filename = Some entry ->
  max_age < now - st_mtime entry ->
  cache_get now content filename fs = (None, delete (path_of content filename) fs) /\
  (cache_get now content filename fs).2 !! path_of content filename = None /\
  (clear_expired max_age_hours now fs).2 !! path_of content filename = None /\
  (clear_expired max_age_hours now fs).1 =
    Z.of_nat (length (List.filter (is_expired now fs) (glob_json fs))) /\
  path_of content filename ∈ List.filter (is_expired now fs) (glob_json fs) /\
  1 <= (clear_expired max_age_hours now fs).1.
Proof.
  intros Hentry Hold.
  assert (cache_get now content filename fs = (None, delete (path_of content filename) fs))
    as Hget.
  { unfold get, exists_, stat, unlink. rewrite Hentry.
    rewrite bool_decide_eq_true_2 by eauto. cbn [negb].
    destruct (Z.ltb_spec max_age (now - st_mtime entry)); [done|lia]. }
  assert (is_expired now fs (path_of content filename) = true) as Hexp.
  { unfold expired. rewrite Hentry. by apply Z.ltb_lt. }
  assert (path_of content filename ∈ glob_json fs) as Hglob.
  { apply elem_of_glob_json. split; [eauto|]. apply endswith_append. }
  destruct (sweep_spec max_age_hours now (glob_json fs) 0 fs (NoDup_glob_json fs))
    as (Hcount & Hgone & _).
  { intros x Hx. by apply elem_of_glob_json in Hx as [? _]. }
  assert (path_of content filename ∈ List.filter (is_expired now fs) (glob_json fs))
    as Hin by (by apply elem_of_bfilter).
  unfold clear_expired. rewrite Hget, Hcount.
  repeat split; try done.
  - apply lookup_delete_eq.
  - by apply Hgone.
  - destruct (List.filter (is_expired now fs) (glob_json fs)) as [|y l].
    + by apply elem_of_nil in Hin.
    + simpl length. lia.
Qed.

End CacheClaims.

(** * Concrete runs *)

Section PatcherRuns.
Import PySlice.

(** The example of the specification. *)
Example patch_this_are :
  apply_ai_context_improvements (str_of "This are a test.")
    [Issue (Some 5) (Some 3) (Some (str_of "is")) true]
  = str_of "This is a test.".
Proof. reflexivity. Qed.

(** C5, as stated, fails: two insertions (spans of length 0, which share
    no position with any span) at the same offset come out in the order
    of the input list. *)
Lemma insertions_at_one_offset_depend_on_order :
  participates (Issue (Some 5) (Some 0) (Some (str_of "X")) true) = true /\
  participates (Issue (Some 5) (Some 0) (Some (str_of "Y")) true) = true /\
  ~ overlap (Issue (Some 5) (Some 0) (Some (str_of "X")) true)
            (Issue (Some 5) (Some 0) (Some (str_of "Y")) true) /\
  apply_ai_context_improvements (str_of "abcdefgh")
    [Issue (Some 5) (Some 0) (Some (str_of "X")) true;
     Issue (Some 5) (Some 0) (Some (str_of "Y")) true]
  = str_of "abcdeYXfgh" /\
  apply_ai_context_improvements (str_of "abcdefgh")
    [Issue (Some 5) (Some 0) (Some (str_of "Y")) true;
     Issue (Some 5) (Some 0) (Some (str_of "X")) true]
  = str_of "abcdeXYfgh" /\
  apply_ai_context_improvements (str_of "abcdefgh")
    [Issue (Some 5) (Some 0) (Some (str_of "X")) true;
     Issue (Some 5) (Some 0) (Some (str_of "Y")) true]
  <>
  apply_ai_context_improvements (str_of "abcdefgh")
    [Issue (Some 5) (Some 0) (Some (str_of "Y")) true;
     Issue (Some 5) (Some 0) (Some (str_of "X")) true].
Proof.
  repeat split; try reflexivity.
  - intros (k & Hx & Hy). unfold get_offset, get_length in *. simpl in *. lia.
  - vm_compute. discriminate.
Qed.

(** Two issues at the offsets 5 and 20, in both input orders. *)
Lemma two_issues_any_order_witness :
  apply_ai_context_improvements (str_of "This are a test and they is here")
    [Issue (Some 5) (Some 3) (Some (str_of "is")) true;
     Issue (Some 20) (Some 4) (Some (str_of "she")) true]
  = str_of "This is a test and she is here" /\
  apply_ai_context_improvements (str_of "This are a test and they is here")
    [Issue (Some 20) (Some 4) (Some (str_of "she")) true;
     Issue (Some 5) (Some 3) (Some (str_of "is")) true]
  = str_of "This is a test and she is here".
Proof.
  apply (two_issues_any_order (str_of "This are a test and they is here")
           (Issue (Some 5) (Some 3) (Some (str_of "is")) true)
           (Issue (Some 20) (Some 4) (Some (str_of "she")) true));
    vm_compute; first [reflexivity | discriminate].
Defined.

(** C8, as stated, fails for a negative offset: the span is neither
    clamped nor rejected.  With offset -2 and length 2 the text before
    the last two characters is kept, and after the replacement the whole
    text follows again. *)
Lemma negative_offset_is_neither_clamped_nor_rejected :
  apply_ai_context_improvements (str_of "abcdef")
    [Issue (Some (-2)) (Some 2) (Some (str_of "X")) true] = str_of "abcdXabcdef" /\
  apply_clamped (str_of "abcdef")
    [Issue (Some (-2)) (Some 2) (Some (str_of "X")) true] = str_of "Xabcdef" /\
  apply_ai_context_improvements (str_of "abcdef")
    [Issue (Some (-2)) (Some 2) (Some (str_of "X")) true]
  <> apply_clamped (str_of "abcdef")
       [Issue (Some (-2)) (Some 2) (Some (str_of "X")) true] /\
  apply_ai_context_improvements (str_of "abcdef")
    [Issue (Some (-2)) (Some 2) (Some (str_of "X")) true]
  <> str_of "abcdef".
Proof. repeat split; try reflexivity; vm_compute; discriminate. Qed.

(** One span inside the text and one beyond its end. *)
Lemma never_faults_and_clamps_forward_spans_witness :
  apply_ai_context_improvements (str_of "abc")
    [Issue (Some 10) (Some 2) (Some (str_of "Y")) true;
     Issue (Some 1) (Some 1) (Some (str_of "X")) true]
  = apply_clamped (str_of "abc")
      [Issue (Some 10) (Some 2) (Some (str_of "Y")) true;
       Issue (Some 1) (Some 1) (Some (str_of "X")) true] /\
  apply_checked (str_of "abc")
    [Issue (Some 10) (Some 2) (Some (str_of "Y")) true;
     Issue (Some 1) (Some 1) (Some (str_of "X")) true]
  = Some (str_of "aXcY").
Proof.
  destruct (never_faults_and_clamps_forward_spans (str_of "abc")
              [Issue (Some 10) (Some 2) (Some (str_of "Y")) true;
               Issue (Some 1) (Some 1) (Some (str_of "X")) true])
    as (Hsafe & Hclamp & _).
  split.
  - apply Hclamp. repeat constructor; vm_compute; discriminate.
  - rewrite Hsafe. reflexivity.
Defined.

End PatcherRuns.

Section ValidatorRuns.
Import Security.

(** How [_get_file_extension] reads some names. *)
Example extension_examples :
  _get_file_extension "report.pdf" = "pdf" /\
  _get_file_extension "Scan.v2.DOCX" = "docx" /\
  _get_file_extension "uploads/report.pdf" = "pdf" /\
  _get_file_extension ".pdf" = "" /\
  _get_file_extension "report" = "".
Proof. repeat split; reflexivity. Qed.

(** A name that is nothing but [.pdf] has no extension, so even PDF
    content is rejected under it, at the signature check. *)
Example bare_suffix_name_rejected :
  validate_file (fun _ => "") (fun _ => "") (b "%PDF-1.4 hello") ".pdf" =
    (false, "Invalid file signature detected",
     {| filename := ".pdf"; file_size := 14; file_hash := "";
        file_type := "pdf"; security_checks := NoChecks |}).
Proof. reflexivity. Qed.

(** C2, as stated, fails in its second half: a clean PDF buffer under a
    [.docx] name is rejected by the signature check, which comes before
    the check of extension against content. *)
Lemma renamed_pdf_fails_signature_check :
  startswith (b "%PDF-1.4 hello") (b "%PDF") = true /\
  len (b "%PDF-1.4 hello") <= 50 * 1024 * 1024 /\
  _check_suspicious_content (b "%PDF-1.4 hello") = [] /\
  validate_file (fun _ => "") (fun _ => "") (b "%PDF-1.4 hello") "report.docx" =
    (false, "Invalid file signature detected",
     {| filename := "report.docx"; file_size := 14; file_hash := "";
        file_type := "pdf"; security_checks := NoChecks |}) /\
  (validate_file (fun _ => "") (fun _ => "") (b "%PDF-1.4 hello") "report.docx").1.2
    <> "File extension does not match file content".
Proof.
  repeat split; try reflexivity.
  - vm_compute. discriminate.
  - vm_compute. discriminate.
Qed.

Lemma pdf_content_by_extension_witness :
  ((validate_file (fun _ => "") (fun _ => "") (b "%PDF-1.4 hello") "report.pdf").1.1 = true /\
   (validate_file (fun _ => "") (fun _ => "") (b "%PDF-1.4 hello") "report.pdf").1.2
     = "File validation passed") /\
  ((validate_file (fun _ => "") (fun _ => "") (b "%PDF-1.4 hello") "report.docx").1.1 = false /\
   (validate_file (fun _ => "") (fun _ => "") (b "%PDF-1.4 hello") "report.docx").1.2
     = "Invalid file signature detected").
Proof.
  apply (pdf_content_by_extension (fun _ => "") (fun _ => "")
           (b "%PDF-1.4 hello") "report.pdf" "report.docx");
    vm_compute; first [reflexivity | discriminate].
Defined.


Lemma risk_score_formula_witness :
  exists checked found,
    security_checks
      (validate_file (fun _ => "") (fun content => string_of_list_byte (lower content))
                     (b "%PDF-1.4 see http://example.org for the VBA macro")
                     "report.pdf").2
    = Diagnostics checked found 55 /\
    macro_content found = true /\ external_links found = true.
Proof.
  destruct (risk_score_formula (fun _ => "")
              (fun content => string_of_list_byte (lower content))
              (b "%PDF-1.4 see http://example.org for the VBA macro")
              "report.pdf" "File validation passed"
              (validate_file (fun _ => "")
                 (fun content => string_of_list_byte (lower content))
                 (b "%PDF-1.4 see http://example.org for the VBA macro")
                 "report.pdf").2 eq_refl)
    as (base & checked & Hchecks & _ & Hbase & _ & _ & Hmacro & Hlinks & _).
  cbv zeta in Hchecks, Hmacro, Hlinks.
  assert (base = 10) as ->.
  { destruct Hbase as [[_ Hb] | [Ht _]]; [done|]. vm_compute in Ht. discriminate Ht. }
  eexists _, _. split; [exact Hchecks|]. split.
  - apply Hmacro. exists "vba"%string. split; [by left|].
    by exists "%pdf-1.4 see http://example.org for the "%string, " macro"%string.
  - apply Hlinks. exists "http://"%string. split; [by left|].
    by exists "%pdf-1.4 see "%string, "example.org for the vba macro"%string.
Defined.

(** The score of that run: 10 for PDF, 30 for the macro keyword and 15
    for the link. *)
Example risk_score_example :
  _calculate_risk_score (fun _ => "see http://example.org, vba")
                        (b "%PDF-1.4 hello") "pdf" = 55.
Proof. reflexivity. Qed.

Lemma pk0708_docx_never_accepted_witness :
  _validate_file_signature (PK x07 x08 ++ b "hello") "docx" = true /\
  _detect_file_type (PK x07 x08 ++ b "hello") = "unknown" /\
  _validate_extension_match (PK x07 x08 ++ b "hello") "docx" = false /\
  (validate_file (fun _ => "") (fun _ => "") (PK x07 x08 ++ b "hello") "report.docx").1.1
    = false.
Proof.
  apply (pk0708_docx_never_accepted (fun _ => "") (fun _ => "")
           (PK x07 x08 ++ b "hello") "report.docx"); reflexivity.
Defined.

End ValidatorRuns.

Section CacheRuns.
Import Cache.

(** C1, as stated, fails: the lookup returns the record written by the
    store operation, which holds the payload under [data] and is never the
    payload itself. *)
Lemma lookup_returns_record_not_payload :
  (get (fun _ => "k") (fun _ => []) 24 0 [] "a.pdf"
       (set (fun _ => "k") (fun _ => []) 0 [] "a.pdf" (JDict [("num_issues", JNum 2)]) ∅)).1
  = Some (JDict [("timestamp", JNum 0); ("filename", JStr "a.pdf");
                 ("data", JDict [("num_issues", JNum 2)])]) /\
  (get (fun _ => "k") (fun _ => []) 24 0 [] "a.pdf"
       (set (fun _ => "k") (fun _ => []) 0 [] "a.pdf" (JDict [("num_issues", JNum 2)]) ∅)).1
  <> Some (JDict [("num_issues", JNum 2)]).
Proof. split; [reflexivity|]. vm_compute. discriminate. Qed.

Lemma store_then_lookup_witness :
  get (fun _ => "k") (fun _ => []) 24 60 [] "a.pdf"
      (set (fun _ => "k") (fun _ => []) 0 [] "a.pdf" (JDict [("num_issues", JNum 2)]) ∅)
  = (Some (JDict [("timestamp", JNum 0); ("filename", JStr "a.pdf");
                  ("data", JDict [("num_issues", JNum 2)])]),
     set (fun _ => "k") (fun _ => []) 0 [] "a.pdf" (JDict [("num_issues", JNum 2)]) ∅).
Proof.
  apply (store_then_lookup (fun _ => "k") (fun _ => []) 24 0 60 [] "a.pdf"
           (JDict [("num_issues", JNum 2)]) ∅).
  vm_compute. discriminate.
Defined.

(** An entry written at time 0 and looked up, or swept, after 25 hours. *)
Lemma expired_entry_reclaimed_witness :
  get (fun _ => "k") (fun _ => []) 24 90000 [] "a.pdf"
      (set (fun _ => "k") (fun _ => []) 0 [] "a.pdf" JNull ∅)
  = (None, delete "k_k.json" (set (fun _ => "k") (fun _ => []) 0 [] "a.pdf" JNull ∅)) /\
  (clear_expired 24 90000 (set (fun _ => "k") (fun _ => []) 0 [] "a.pdf" JNull ∅)).2
    !! "k_k.json" = None /\
  1 <= (clear_expired 24 90000 (set (fun _ => "k") (fun _ => []) 0 [] "a.pdf" JNull ∅)).1.
Proof.
  destruct (expired_entry_reclaimed (fun _ => "k") (fun _ => []) 24 90000 [] "a.pdf"
              (set (fun _ => "k") (fun _ => []) 0 [] "a.pdf" JNull ∅)
              (File 0 (Some (JDict [("timestamp", JNum 0); ("filename", JStr "a.pdf");
                                    ("data", JNull)]))))
    as (Hget & _ & Hswept & _ & _ & Hcount).
  - reflexivity.
  - reflexivity.
  - split; [exact Hget|]. split; [exact Hswept|exact Hcount].
Defined.

(** The same run, computed: the sweep removes one file and empties the
    directory. *)
Example sweep_example :
  clear_expired 24 90000 (set (fun _ => "k") (fun _ => []) 0 [] "a.pdf" JNull ∅) = (1, ∅).
Proof. reflexivity. Qed.

End CacheRuns.

(** * Further properties of the file validator *)

Section ValidatorMore.
Import Security.

Variable sha256_hexdigest : bytes -> string.
Variable decode_ignore_lower : bytes -> string.

Abbreviation validate' := (validate_file sha256_hexdigest decode_ignore_lower).

(** The report that every rejection before the content scan carries. *)
Abbreviation plain_report content name :=
  {| filename := name;
     file_size := len content;
     file_hash := sha256_hexdigest content;
     file_type := _detect_file_type content;
     security_checks := NoChecks |}.

Lemma startswith_len (content prefix : bytes) :
  startswith content prefix = true -> len prefix <= len content.
Proof.
  intros H. apply startswith_inv in H as [rest ->].
  unfold len. rewrite length_app. lia.
Qed.

Lemma bytes_in_inv (pattern content : bytes) :
  bytes_in pattern content = true ->
  exists before after, content = before ++ pattern ++ after.
Proof.
  induction content as [|c cs IH]; simpl; intros H.
  - rewrite orb_false_r in H. apply startswith_inv in H as [rest ->].
    by exists [], rest.
  - apply orb_prop in H as [H | H].
    + apply startswith_inv in H as [rest ->]. by exists [], rest.
    + destruct (IH H) as (before & after & ->). by exists (c :: before), after.
Qed.

(** The scan of one pattern is exact. *)
Lemma bytes_in_lower_iff (pattern content : bytes) :
  bytes_in (lower pattern) (lower content) = true <->
  occurs_ignoring_case pattern content.
Proof.
  split; [|apply occurs_bytes_in].
  intros H. apply bytes_in_inv in H as (before' & after' & H).
  unfold lower in H.
  apply map_eq_app in H as (before & rest & -> & Hb & H).
  apply map_eq_app in H as (found & after & -> & Hf & Ha).
  by exists before, found, after.
Qed.

(** X1.  The sniffer says [pdf] exactly for content that starts with the
    PDF signature and [docx] exactly for content that starts with one of
    the first two ZIP markers (the length test adds nothing); every other
    content is [unknown]. *)
Theorem detect_file_type_spec (content : bytes) :
  (_detect_file_type content = "pdf" <-> startswith content (b "%PDF") = true) /\
  (_detect_file_type content = "docx" <->
     startswith content (PK x03 x04) = true \/ startswith content (PK x05 x06) = true) /\
  (_detect_file_type content = "pdf" \/ _detect_file_type content = "docx" \/
   _detect_file_type content = "unknown").
Proof.
  unfold _detect_file_type.
  destruct (startswith content (b "%PDF")) eqn:Hpdf.
  - pose proof (startswith_len _ _ Hpdf) as Hlen.
    change (len (b "%PDF")) with 4 in Hlen.
    destruct (Z.leb_spec 4 (len content)); [|lia].
    apply startswith_inv in Hpdf as [rest ->].
    change (b "%PDF" ++ rest) with (x25 :: x50 :: x44 :: x46 :: rest).
    repeat split; try done; try (by left).
    intros [Hx | Hx]; vm_compute in Hx; done.
  - destruct (startswith content (PK x03 x04)) eqn:H34.
    + pose proof (startswith_len _ _ H34) as Hlen.
      change (len (PK x03 x04)) with 4 in Hlen.
      destruct (Z.leb_spec 4 (len content)); [|lia].
      cbn [orb]. repeat split; try done; try (by left); by right; left.
    + destruct (startswith content (PK x05 x06)) eqn:H56.
      * pose proof (startswith_len _ _ H56) as Hlen.
        change (len (PK x05 x06)) with 4 in Hlen.
        destruct (Z.leb_spec 4 (len content)); [|lia].
        cbn [orb]. repeat split; try done; try (by right); by right; left.
      * cbn [orb].
        destruct (4 <=? len content); repeat split; try done;
          try (by intros [?|?]); by right; right.
Qed.

(** X2.  The content scan is exact: it reports nothing if and only if no
    pattern of the denylist occurs in the content, letter case ignored. *)
Theorem suspicious_scan_exact (content : bytes) :
  _check_suspicious_content content = [] <->
  forall pattern, In pattern suspicious_patterns ->
                  ~ occurs_ignoring_case pattern content.
Proof.
  unfold _check_suspicious_content.
  split.
  - intros Hnil pattern Hin Hocc. apply map_eq_nil in Hnil.
    apply bytes_in_lower_iff in Hocc.
    assert (In pattern (List.filter
              (fun pattern => bytes_in (lower pattern) (lower content))
              suspicious_patterns)) as H by (apply filter_In; done).
    rewrite Hnil in H. done.
  - intros H.
    destruct (List.filter _ suspicious_patterns) as [|p l] eqn:E; [done|].
    assert (In p (p :: l)) as Hp by (by left).
    rewrite <- E in Hp. apply filter_In in Hp as [Hin Hocc].
    apply bytes_in_lower_iff in Hocc. by destruct (H p Hin).
Qed.

Lemma oversize_none (content : bytes) (extension : string) :
  oversize content extension = None ->
  forall limit, lookup_key extension max_file_sizes = Some limit -> len content <= limit.
Proof.
  unfold oversize. intros H limit Hl. rewrite Hl in H.
  destruct (Z.ltb_spec limit (len content)); [done|lia].
Qed.

(** X3.  What acceptance guarantees: the reason is the success message,
    the extension is [pdf] or [docx] and equals the sniffed type, the size
    is within the limit of that type, the signature is one of the type's,
    no denylisted pattern occurs in the content, and the report carries
    the name, the size, the digest and the three diagnostics. *)
Theorem accepted_file_invariant (content : bytes) (name reason : string)
        (report : validation_result) :
  validate' content name = (true, reason, report) ->
  reason = "File validation passed" /\
  (_get_file_extension name = "pdf" /\ len content <= 50 * 1024 * 1024 \/
   _get_file_extension name = "docx" /\ len content <= 25 * 1024 * 1024) /\
  _detect_file_type content = _get_file_extension name /\
  _validate_file_signature content (_get_file_extension name) = true /\
  (forall pattern, In pattern suspicious_patterns ->
                   ~ occurs_ignoring_case pattern content) /\
  filename report = name /\
  file_size report = len content /\
  file_hash report = sha256_hexdigest content /\
  file_type report = _detect_file_type content /\
  exists checked found score,
    security_checks report = Diagnostics checked found score.
Proof.
  unfold validate_file. intros H.
  destruct (oversize _ _) eqn:Hsize; [done|].
  destruct (_validate_file_signature _ _) eqn:Hsig; [|done]. cbn [negb] in H.
  destruct (_check_suspicious_content _) eqn:Hscan; [|done].
  destruct (_validate_extension_match _ _) eqn:Hmatch; [|done]. cbn [negb] in H.
  apply extension_match_inv in Hmatch as [Hext Htype].
  injection H as <- <-. cbn [filename file_size file_hash file_type security_checks].
  pose proof (oversize_none _ _ Hsize) as Hlimit.
  split; [done|]. split.
  { destruct Hext as [E | E]; rewrite E in Hlimit; [left | right];
      (split; [done|]); by apply Hlimit. }
  split; [done|]. split; [done|]. split; [by apply suspicious_scan_exact|].
  repeat split; eauto.
Qed.

(** X4.  A name whose extension is neither [pdf] nor [docx] (no
    extension included) is rejected with the invalid-signature reason,
    whatever the content is: no size limit applies and no signature is
    registered for it. *)
Theorem unsupported_extension_rejected (content : bytes) (name : string) :
  _get_file_extension name <> "pdf" ->
  _get_file_extension name <> "docx" ->
  validate' content name =
    (false, "Invalid file signature detected", plain_report content name).
Proof.
  intros Hpdf Hdocx. apply String.eqb_neq in Hpdf, Hdocx.
  unfold validate_file, oversize, _validate_file_signature.
  cbn [lookup_key max_file_sizes allowed_signatures].
  by rewrite Hpdf, Hdocx.
Qed.

(** X5.  Content above the size limit of the name's extension is rejected
    with the size reason before anything else is looked at, so whatever
    its signature and its content are; the reason names the limit in MB. *)
Theorem oversize_rejected (content : bytes) (name : string) (limit : Z) :
  lookup_key (_get_file_extension name) max_file_sizes = Some limit ->
  limit < len content ->
  validate' content name = (false, too_large limit, plain_report content name) /\
  (_get_file_extension name = "pdf" /\
     too_large limit = "File too large. Maximum size: 50.0MB" \/
   _get_file_extension name = "docx" /\
     too_large limit = "File too large. Maximum size: 25.0MB").
Proof.
  intros Hlimit Hlen. split.
  - unfold validate_file, oversize. rewrite Hlimit.
    destruct (Z.ltb_spec limit (len content)); [done|lia].
  - unfold max_file_sizes in Hlimit. cbn [lookup_key] in Hlimit.
    destruct (String.eqb_spec (_get_file_extension name) "pdf") as [E|_].
    { left. injection Hlimit as <-. split; [done|]. reflexivity. }
    destruct (String.eqb_spec (_get_file_extension name) "docx") as [E|_]; [|done].
    right. injection Hlimit as <-. split; [done|]. reflexivity.
Qed.

(** X6.  The shape of the report follows the outcome: diagnostics (and
    with them the risk score) are present exactly when the file is
    accepted; a rejection for suspicious content lists at least one
    finding; every other rejection carries no checks at all. *)
Theorem report_shape (content : bytes) (name : string) :
  match security_checks (validate' content name).2 with
  | Diagnostics _ _ _ =>
      (validate' content name).1.1 = true /\
      (validate' content name).1.2 = "File validation passed"
  | SuspiciousContent found =>
      (validate' content name).1.1 = false /\
      (validate' content name).1.2 = "Suspicious content detected in file" /\
      found = _check_suspicious_content content /\ found <> []
  | NoChecks =>
      (validate' content name).1.1 = false /\
      (validate' content name).1.2 <> "File validation passed" /\
      (validate' content name).1.2 <> "Suspicious content detected in file"
  end.
Proof.
  unfold validate_file.
  destruct (oversize _ _) as [limit|] eqn:Hsize.
  { cbn. split; [done|]. unfold too_large. split; intros H; discriminate H. }
  destruct (_validate_file_signature _ _); cbn [negb].
  2: { cbn. repeat split; done. }
  destruct (_check_suspicious_content _) eqn:Hscan.
  2: { cbn. repeat split; done. }
  destruct (_validate_extension_match _ _); cbn; repeat split; done.
Qed.

End ValidatorMore.

(** * Further properties of the result cache *)

Section FlushFacts.
Import Cache.

(** The loop of [clear_all] on distinct names of existing files removes
    and counts every one of them. *)
Lemma flush_spec (names : list string) :
  forall (n : Z) (fs : dir),
    NoDup names ->
    (forall x, x ∈ names -> is_Some (fs !! x)) ->
    (flush names n fs).1 = n + Z.of_nat (length names) /\
    (forall p, p ∈ names -> (flush names n fs).2 !! p = None) /\
    (forall p, p ∉ names -> (flush names n fs).2 !! p = fs !! p).
Proof.
  induction names as [|x rest IH]; intros n fs Hnd Hex.
  - simpl. split; [lia|]. split; [|done]. intros p Hp. by apply elem_of_nil in Hp.
  - apply NoDup_cons in Hnd as [Hx Hrest].
    destruct (Hex x) as [st Hst]; [by left|].
    cbn [flush]. unfold unlink. rewrite Hst.
    destruct (IH (n + 1) (delete x fs) Hrest) as (Hcount & Hgone & Hkept).
    { intros y Hy. rewrite lookup_delete_ne by (by intros ->). apply Hex. by right. }
    split; [|split].
    + rewrite Hcount. simpl length. lia.
    + intros p Hp. apply elem_of_cons in Hp as [-> | Hp]; [|by apply Hgone].
      rewrite Hkept by done. apply lookup_delete_eq.
    + intros p Hp. apply not_elem_of_cons in Hp as [Hne Hp].
      rewrite Hkept by done. by apply lookup_delete_ne.
Qed.

Lemma bfilter_false {A} (l : list A) : List.filter (fun _ => false) l = [].
Proof. induction l as [|x l IH]; [done|exact IH]. Qed.

Lemma glob_json_nil (fs : dir) :
  (forall name, is_Some (fs !! name) -> endswith name ".json" = false) ->
  glob_json fs = [].
Proof.
  intros H. destruct (glob_json fs) as [|x l] eqn:E; [done|].
  assert (x ∈ glob_json fs) as Hx by (rewrite E; by left).
  apply elem_of_glob_json in Hx as [Hsome Hend].
  rewrite (H x Hsome) in Hend. done.
Qed.

End FlushFacts.

Section CacheMore.
Import Cache.

Variable md5_hexdigest : bytes -> string.
Variable encode : string -> bytes.
Variable max_age_hours : Z.

Abbreviation cache_get := (get md5_hexdigest encode max_age_hours).
Abbreviation cache_set := (set md5_hexdigest encode).
Abbreviation path_of content filename :=
  (_get_cache_path (_get_cache_key md5_hexdigest encode content filename)).
Abbreviation max_age := (max_age_seconds max_age_hours).
Abbreviation is_expired := (expired max_age_hours).
Abbreviation sweep_expired := (clear_expired max_age_hours).

(** A lookup for content and file name that have no cache file returns
    nothing and leaves the directory as it is. *)
Lemma lookup_never_stored (now : Z) (content : bytes) (filename : string) (fs : dir) :
  fs !! path_of content filename = None ->
  cache_get now content filename fs = (None, fs).
Proof.
  intros H. unfold get, exists_. rewrite H.
  rewrite bool_decide_eq_false_2; [done|]. by intros [? ?].
Qed.

(** X7.  A lookup changes the directory in one case only: it deletes the
    file of its own key when that file is older than the maximum age, and
    then it returns nothing.  It never creates a file and never touches
    the file of another key; for a key that has no file it returns
    nothing. *)
Theorem lookup_effect (now : Z) (content : bytes) (filename : string) (fs : dir) :
  ((cache_get now content filename fs).2 = fs \/
   ((cache_get now content filename fs).1 = None /\
    (cache_get now content filename fs).2 = delete (path_of content filename) fs /\
    exists entry, fs !! path_of content filename = Some entry /\
                  max_age < now - st_mtime entry)) /\
  (fs !! path_of content filename = None ->
   cache_get now content filename fs = (None, fs)).
Proof.
  split; [|apply lookup_never_stored].
  unfold get, exists_, stat, unlink.
  destruct (fs !! path_of content filename) as [entry|] eqn:Hentry.
  - rewrite bool_decide_eq_true_2 by eauto. cbn [negb].
    destruct (Z.ltb_spec max_age (now - st_mtime entry)).
    + right. repeat split; eauto.
    + left. by destruct (document entry).
  - left. rewrite bool_decide_eq_false_2; [done|]. by intros [? ?].
Qed.

(** X8.  Storing writes one file and touches no other; storing twice
    under one key keeps the second record only (the entry is overwritten
    wholesale, with the later write time). *)
Theorem store_overwrites (now1 now2 : Z) (content : bytes) (filename : string)
        (data1 data2 : json) (fs : dir) (other : string) :
  cache_set now2 content filename data2 (cache_set now1 content filename data1 fs) =
    cache_set now2 content filename data2 fs /\
  (other = path_of content filename \/
   cache_set now1 content filename data1 fs !! other = fs !! other) /\
  st_mtime <$> (cache_set now2 content filename data2
                  (cache_set now1 content filename data1 fs)
                !! path_of content filename) = Some now2.
Proof.
  unfold set. split; [apply insert_insert_eq|]. split.
  - destruct (decide (other = path_of content filename)) as [->|Hne]; [by left|].
    right. by rewrite lookup_insert_ne.
  - by rewrite lookup_insert_eq.
Qed.

(** X10.  Storing under one key does not change what a lookup under a
    key with another cache file returns. *)
Theorem store_frame (now now' : Z) (content content' : bytes)
        (filename filename' : string) (data : json) (fs : dir) :
  path_of content filename <> path_of content' filename' ->
  (cache_get now' content' filename' (cache_set now content filename data fs)).1 =
  (cache_get now' content' filename' fs).1.
Proof.
  intros Hne. unfold get, set, exists_, stat, unlink.
  rewrite lookup_insert_ne by done.
  destruct (fs !! path_of content' filename') as [entry|] eqn:Hentry.
  - rewrite !bool_decide_eq_true_2 by eauto. cbn [negb].
    destruct (max_age <? now' - st_mtime entry); [done|].
    by destruct (document entry).
  - rewrite !bool_decide_eq_false_2; try done; by intros [? ?].
Qed.

(** X11.  A lookup made after the maximum age has passed since the store
    returns nothing and removes the file that the store wrote. *)
Theorem store_then_late_lookup (now now' : Z) (content : bytes) (filename : string)
        (data : json) (fs : dir) :
  max_age < now' - now ->
  cache_get now' content filename (cache_set now content filename data fs) =
    (None, delete (path_of content filename) fs).
Proof.
  intros Hage. unfold get, set, exists_, stat, unlink.
  rewrite lookup_insert_eq.
  rewrite bool_decide_eq_true_2 by eauto. cbn [negb st_mtime].
  destruct (Z.ltb_spec max_age (now' - now)); [|lia].
  by rewrite delete_insert_eq.
Qed.

(** X12.  [clear_all] returns the number of cache files, removes every
    one of them and nothing else; afterwards every lookup returns
    nothing. *)
Theorem clear_all_empties_cache (fs : dir) :
  (clear_all fs).1 = Z.of_nat (length (glob_json fs)) /\
  glob_json (clear_all fs).2 = [] /\
  (forall p, endswith p ".json" = false -> (clear_all fs).2 !! p = fs !! p) /\
  (forall now content filename,
     cache_get now content filename (clear_all fs).2 = (None, (clear_all fs).2)).
Proof.
  unfold clear_all.
  destruct (flush_spec (glob_json fs) 0 fs (NoDup_glob_json fs))
    as (Hcount & Hgone & Hkept).
  { intros x Hx. by apply elem_of_glob_json in Hx as [? _]. }
  assert (forall name, endswith name ".json" = true ->
                       (flush (glob_json fs) 0 fs).2 !! name = None) as Hnone.
  { intros name Hend. destruct (fs !! name) as [st|] eqn:Hst.
    - apply Hgone. apply elem_of_glob_json. eauto.
    - rewrite Hkept; [done|]. intros Hin.
      apply elem_of_glob_json in Hin as [[? Hsome] _]. congruence. }
  split; [by rewrite Hcount|]. split; [|split].
  - apply glob_json_nil. intros name [st Hst].
    destruct (endswith name ".json") eqn:Hend; [|done].
    rewrite Hnone in Hst; done.
  - intros p Hp. apply Hkept. intros Hin.
    apply elem_of_glob_json in Hin as [_ Hend]. congruence.
  - intros now content filename. apply lookup_never_stored.
    apply Hnone, endswith_append.
Qed.

(** X13.  [clear_expired] keeps every file that is not an expired cache
    file: an entry within the maximum age, and any file whose name does
    not end in [.json], is still there afterwards, unchanged. *)
Theorem sweep_keeps_fresh (now : Z) (fs : dir) (name : string) (entry : file) :
  fs !! name = Some entry ->
  now - st_mtime entry <= max_age \/ endswith name ".json" = false ->
  (sweep_expired now fs).2 !! name = Some entry.
Proof.
  intros Hentry Hfresh. unfold clear_expired.
  destruct (sweep_spec max_age_hours now (glob_json fs) 0 fs (NoDup_glob_json fs))
    as (_ & _ & Hkept).
  { intros x Hx. by apply elem_of_glob_json in Hx as [? _]. }
  rewrite Hkept; [done|].
  destruct Hfresh as [Hage | Hname].
  - right. unfold expired. rewrite Hentry. apply Z.ltb_ge. lia.
  - left. intros Hin. apply elem_of_glob_json in Hin as [_ Hend]. congruence.
Qed.

(** X14.  A second sweep at the same time finds nothing to remove: it
    returns 0 and leaves the directory as the first sweep left it. *)
Theorem sweep_idempotent (now : Z) (fs : dir) :
  clear_expired max_age_hours now (clear_expired max_age_hours now fs).2 =
  (0, (clear_expired max_age_hours now fs).2).
Proof.
  unfold clear_expired.
  destruct (sweep_spec max_age_hours now (glob_json fs) 0 fs (NoDup_glob_json fs))
    as (_ & Hgone & Hkept).
  { intros x Hx. by apply elem_of_glob_json in Hx as [? _]. }
  set (fs' := (sweep max_age_hours now (glob_json fs) 0 fs).2) in *.
  assert (forall x, x ∈ glob_json fs' -> is_expired now fs' x = false) as Hfresh.
  { intros x Hx. apply elem_of_glob_json in Hx as [[st Hst] Hend].
    destruct (is_expired now fs x) eqn:Hexp.
    - destruct (fs !! x) as [st0|] eqn:Hst0.
      + rewrite Hgone in Hst; [done| |done]. apply elem_of_glob_json. eauto.
      + unfold expired in Hexp. by rewrite Hst0 in Hexp.
    - unfold expired. rewrite Hkept by (by right).
      exact Hexp. }
  destruct (sweep_spec max_age_hours now (glob_json fs') 0 fs' (NoDup_glob_json fs'))
    as (Hcount' & _ & Hkept').
  { intros x Hx. by apply elem_of_glob_json in Hx as [? _]. }
  rewrite (bfilter_ext (is_expired now fs') (fun _ => false)) in Hcount' by done.
  rewrite bfilter_false in Hcount'. simpl in Hcount'.
  apply injective_projections; cbn [fst snd]; [done|].
  apply map_eq. intros p. apply Hkept'.
  destruct (is_expired now fs' p) eqn:Hexp; [|by right].
  left. intros Hin. rewrite (Hfresh p Hin) in Hexp. done.
Qed.

End CacheMore.

(** * Further properties of the text patcher *)

Section PatcherMore.
Import PySlice.

Lemma insert_desc_perm x l : insert_desc x l ≡ₚ x :: l.
Proof.
  induction l as [|y l IH]; simpl; [done|].
  destruct (get_offset x <? get_offset y); [|done].
  rewrite IH. apply Permutation_swap.
Qed.

Lemma sorted_desc_perm l : sorted_desc l ≡ₚ l.
Proof.
  induction l as [|x l IH]; simpl; [done|].
  by rewrite insert_desc_perm, IH.
Qed.

Lemma offsets_inj (l : list issue) x y :
  NoDup (get_offset <$> l) -> x ∈ l -> y ∈ l -> get_offset x = get_offset y -> x = y.
Proof.
  induction l as [|z l IH]; intros Hnd Hx Hy Hxy.
  - by apply elem_of_nil in Hx.
  - rewrite fmap_cons in Hnd. apply NoDup_cons in Hnd as [Hz Hnd].
    apply elem_of_cons in Hx as [-> | Hx]; apply elem_of_cons in Hy as [-> | Hy].
    + done.
    + destruct Hz. rewrite Hxy. by apply list_elem_of_fmap_2.
    + destruct Hz. rewrite <- Hxy. by apply list_elem_of_fmap_2.
    + by apply IH.
Qed.

(** Two lists sorted by decreasing offset, with the same issues and no
    offset twice, are the same list. *)
Lemma sorted_by_offset_unique (l1 : list issue) :
  forall l2, StronglySorted before l1 -> StronglySorted before l2 ->
             l1 ≡ₚ l2 -> NoDup (get_offset <$> l1) -> l1 = l2.
Proof.
  induction l1 as [|x1 t1 IH]; intros l2 S1 S2 Hperm Hnd.
  - by apply Permutation_nil in Hperm.
  - destruct l2 as [|x2 t2].
    { symmetry in Hperm. by apply Permutation_nil in Hperm. }
    apply StronglySorted_inv in S1 as [S1 H1].
    apply StronglySorted_inv in S2 as [S2 H2].
    rewrite Forall_forall in H1, H2.
    assert (x1 = x2) as ->.
    { assert (x1 ∈ x2 :: t2) as Hx1 by (rewrite <- Hperm; by left).
      assert (x2 ∈ x1 :: t1) as Hx2 by (rewrite Hperm; by left).
      apply elem_of_cons in Hx1 as [-> | Hx1]; [done|].
      pose proof Hx2 as Hx2'.
      apply elem_of_cons in Hx2 as [-> | Hx2]; [done|].
      apply (offsets_inj (x1 :: t1)); [done|by left|done|].
      pose proof (H1 _ Hx2). pose proof (H2 _ Hx1). unfold before in *. lia. }
    f_equal. apply IH; try done.
    + by apply Permutation_cons_inv in Hperm.
    + rewrite fmap_cons in Hnd. by apply NoDup_cons in Hnd as [_ Hnd].
Qed.

(** X15.  When no two issues have the same offset, the result does not
    depend on the order of the list: every rearrangement of the issues
    gives the same text (whether or not their spans overlap). *)
Theorem order_is_irrelevant_for_distinct_offsets (text : str) (issues issues' : list issue) :
  issues ≡ₚ issues' ->
  NoDup (get_offset <$> issues) ->
  apply_ai_context_improvements text issues =
  apply_ai_context_improvements text issues'.
Proof.
  intros Hperm Hnd. rewrite !apply_as_fold. f_equal.
  apply sorted_by_offset_unique; try apply sorted_desc_sorted.
  - by rewrite !sorted_desc_perm.
  - by rewrite sorted_desc_perm.
Qed.

(** X16.  One issue whose span lies inside the text replaces that span
    and nothing else; the length of the result is that of the text, minus
    the length of the span, plus the length of the replacement. *)
Theorem single_replacement_in_bounds (text : str) (i : issue) :
  participates i = true ->
  0 <= get_offset i -> 0 <= get_length i ->
  get_offset i + get_length i <= len text ->
  apply_ai_context_improvements text [i] =
    take (Z.to_nat (get_offset i)) text ++ replacement i ++
    drop (Z.to_nat (get_offset i + get_length i)) text /\
  len (apply_ai_context_improvements text [i]) =
    len text - get_length i + len (replacement i).
Proof.
  intros Hi Ho Hl Hin.
  assert (apply_ai_context_improvements text [i] =
          take (Z.to_nat (get_offset i)) text ++ replacement i ++
          drop (Z.to_nat (get_offset i + get_length i)) text) as Heq.
  { rewrite apply_as_fold. cbn [sorted_desc insert_desc foldl].
    unfold apply_issue, splice. rewrite Hi. cbv zeta.
    rewrite upto_in_range, from_in_range by lia. done. }
  split; [done|]. rewrite Heq.
  unfold len in *. rewrite !length_app, length_take, length_drop. lia.
Qed.

(** X17.  A negative offset counts from the end of the text, but the end
    of the span is computed as offset + length: for a span meant to cover
    the last characters of the text (offset -k, length k) the end is 0,
    so the characters are not replaced; the replacement is followed by
    the whole text once more. *)
Theorem negative_offset_repeats_text (keep : str) (c0 : ascii) (tail : str)
        (c : ascii) (improvement : str) :
  apply_ai_context_improvements (keep ++ c0 :: tail)
    [Issue (Some (- len (c0 :: tail))) (Some (len (c0 :: tail)))
           (Some (c :: improvement)) true]
  = keep ++ replacement_of (c :: improvement) ++ keep ++ c0 :: tail.
Proof.
  rewrite apply_as_fold. cbn [sorted_desc insert_desc foldl].
  unfold apply_issue, participates, truthy_improvement, get_offset, get_length.
  cbn [context_improvement enhanced offset length_ andb default]. unfold id.
  unfold splice. f_equal; [|f_equal].
  - unfold upto, adjust. rewrite len_app.
    pose proof (len_nonneg keep). unfold len in *. simpl length in *.
    destruct (Z.ltb_spec (- Z.of_nat (S (length tail))) 0); [|lia].
    replace (Z.to_nat _) with (length keep) by lia.
    apply take_app_length.
  - replace (- len (c0 :: tail) + len (c0 :: tail)) with 0 by lia.
    unfold from, adjust. rewrite len_app.
    pose proof (len_nonneg keep). unfold len in *. simpl length in *.
    destruct (Z.ltb_spec 0 0); [lia|].
    replace (Z.to_nat _) with 0%nat by lia. done.
Qed.

Lemma slice_inner {A} (s : list A) : slice s 1 (-1) = removelast (tl s).
Proof.
  destruct s as [|c t]; [done|].
  unfold slice, len. simpl length. cbn [tl].
  rewrite (adjust_in_range _ 1) by lia.
  unfold adjust. destruct (Z.ltb_spec (-1) 0); [|lia].
  replace (Z.to_nat (Z.max (-1 + Z.of_nat (S (length t))) 0) - Z.to_nat 1)%nat
    with (pred (length t)) by lia.
  change (Z.to_nat 1) with 1%nat. cbn [drop]. rewrite drop_0.
  symmetry. apply removelast_firstn_len.
Qed.

(** X18.  Every improvement falls into one of three cases: a single
    double quote gives the empty replacement; a double quote, an inner
    text and a double quote give the inner text (one pair of quotes is
    removed, whatever the inner text holds); and an improvement that does
    not both start and end with a double quote is used as it is. *)
Theorem replacement_of_cases (improvement : str) :
  (improvement = [quote] /\ replacement_of improvement = []) \/
  (exists inner : str,
     improvement = quote :: inner ++ [quote] /\ replacement_of improvement = inner) \/
  ((head improvement <> Some quote \/ last improvement <> Some quote) /\
   replacement_of improvement = improvement).
Proof.
  destruct improvement as [|c s].
  { right. right. split; [by left|done]. }
  destruct (Ascii.eqb_spec c quote) as [->|Hc].
  2: { right. right. split; [left; cbn; congruence|].
       apply replacement_of_plain. left. cbn. by apply Ascii.eqb_neq. }
  destruct s as [|d s] using rev_ind; [by left|]. clear IHs.
  right. destruct (Ascii.eqb_spec d quote) as [->|Hd].
  - left. exists s. split; [done|]. apply replacement_of_wrapped.
  - right.
    assert (last (quote :: s ++ [d]) = Some d) as Hlast
      by (rewrite app_comm_cons; apply last_snoc).
    split; [right; rewrite Hlast; congruence|].
    apply replacement_of_plain. right. unfold endswith_quote. rewrite Hlast.
    by apply Ascii.eqb_neq.
Qed.

End PatcherMore.

(** * Properties of [sanitize_filename] *)

Section SanitizeFacts.
Import PySlice OsPath Sanitize.

Lemma rfind_absent (c : ascii) (p : str) : c ∉ p -> rfind c p = -1.
Proof.
  induction p as [|x p IH]; intros H; [done|].
  apply not_elem_of_cons in H as [Hx Hp]. cbn [rfind]. rewrite (IH Hp).
  cbn. destruct (Ascii.eqb_spec x c); [congruence|done].
Qed.

Lemma rfind_bounds (c : ascii) (p : str) : -1 <= rfind c p < len p.
Proof.
  unfold len. induction p as [|x p IH]; [simpl; lia|].
  cbn [rfind]. simpl length.
  destruct (Z.leb_spec 0 (rfind c p)); [lia|].
  destruct (Ascii.eqb x c); lia.
Qed.

(** The two parts of [splitext] make up the path. *)
Lemma splitext_app (p : str) : (splitext p).1 ++ (splitext p).2 = p.
Proof.
  unfold splitext. destruct (_ && _); cbn [fst snd].
  - unfold upto, from. apply take_drop.
  - apply app_nil_r.
Qed.

(** The loop over the dangerous characters, character by character. *)
Lemma replaced_spec (s : str) :
  foldl (fun filename char => replace char "_"%char filename) s dangerous_chars =
  map (fun c => if existsb (Ascii.eqb c) dangerous_chars then "_"%char else c) s.
Proof.
  unfold dangerous_chars. cbn [foldl]. unfold replace. rewrite !map_map.
  apply map_ext. intros c.
  destruct c as [[] [] [] [] [] [] [] []]; reflexivity.
Qed.

Lemma cleaned_safe (filename : str) :
  Forall (fun c => ~ In c dangerous_chars) (cleaned filename).
Proof.
  unfold cleaned. rewrite replaced_spec. apply Forall_forall. intros c Hc.
  apply list_elem_of_In, in_map_iff in Hc as (y & <- & _).
  destruct (existsb (Ascii.eqb y) dangerous_chars) eqn:Hy.
  - vm_compute. intuition discriminate.
  - intros Hin.
    assert (existsb (Ascii.eqb y) dangerous_chars = true) as Ht; [|congruence].
    apply existsb_exists. exists y. split; [done|apply Ascii.eqb_refl].
Qed.

Lemma sanitize_subseteq (filename : str) :
  sanitize_filename filename ⊆ cleaned filename.
Proof.
  unfold sanitize_filename. destruct (100 <? len (cleaned filename)); [|done].
  pose proof (splitext_app (cleaned filename)) as Happ.
  destruct (splitext (cleaned filename)) as [name ext]. cbn [fst snd] in Happ.
  rewrite <- Happ. unfold upto.
  intros c Hc. apply elem_of_app in Hc as [Hc | Hc]; apply elem_of_app.
  - left. by apply (subseteq_take (adjust (len name) 95) name).
  - by right.
Qed.

(** A name without dangerous characters (the slash is one of them) that
    is at most 100 characters long is returned as it is. *)
Lemma sanitize_safe_name (filename : str) :
  Forall (fun c => ~ In c dangerous_chars) filename ->
  len filename <= 100 ->
  sanitize_filename filename = filename.
Proof.
  intros Hsafe Hlen. rewrite Forall_forall in Hsafe.
  assert (cleaned filename = filename) as Hclean.
  { unfold cleaned, basename. rewrite rfind_absent.
    2: { intros Hin. apply (Hsafe _ Hin). vm_compute. tauto. }
    change (-1 + 1) with 0. rewrite from_in_range by (pose proof (len_nonneg filename); lia).
    rewrite drop_0, replaced_spec.
    rewrite <- (map_id filename) at 2. apply map_ext_in. intros c Hc.
    destruct (existsb (Ascii.eqb c) dangerous_chars) eqn:Hd; [|done].
    apply existsb_exists in Hd as (d & Hd & Heq).
    apply Ascii.eqb_eq in Heq as <-. apply list_elem_of_In in Hc.
    by destruct (Hsafe c Hc). }
  unfold sanitize_filename. rewrite Hclean.
  destruct (Z.ltb_spec 100 (len filename)); [lia|done].
Qed.

Lemma sanitize_safe (filename : str) :
  Forall (fun c => ~ In c dangerous_chars) (sanitize_filename filename).
Proof.
  apply Forall_forall. intros c Hc.
  apply sanitize_subseteq in Hc.
  pose proof (cleaned_safe filename) as H. rewrite Forall_forall in H. by apply H.
Qed.

(** X19.  The sanitised name contains none of the dangerous characters;
    in particular it has no slash and no backslash, so it names no
    directory. *)
Theorem sanitized_name_is_safe (filename : str) :
  Forall (fun c => ~ In c dangerous_chars) (sanitize_filename filename) /\
  ("/"%char ∉ sanitize_filename filename) /\
  (ascii_of_nat 92 ∉ sanitize_filename filename).
Proof.
  pose proof (sanitize_safe filename) as H. split; [done|].
  rewrite Forall_forall in H.
  split; intros Hin; apply (H _ Hin); vm_compute; tauto.
Qed.

(** X20.  The sanitised name is never longer than the name given; and
    it has at most 100 characters whenever the extension of the cleaned
    name (the part from its last dot) has at most 5: the truncation keeps
    95 characters of the stem and the whole extension. *)
Theorem sanitized_name_length (filename : str) :
  (length (sanitize_filename filename) <= length filename)%nat /\
  ((length (splitext (cleaned filename)).2 <= 5)%nat ->
   (length (sanitize_filename filename) <= 100)%nat).
Proof.
  assert (length (cleaned filename) <= length filename)%nat as Hc.
  { unfold cleaned. rewrite replaced_spec, length_map.
    unfold basename, from. rewrite length_drop. lia. }
  unfold sanitize_filename.
  destruct (Z.ltb_spec 100 (len (cleaned filename))) as [Hlong|Hshort].
  - pose proof (splitext_app (cleaned filename)) as Happ.
    destruct (splitext (cleaned filename)) as [name ext]. cbn [fst snd] in *.
    assert (length (upto name 95) <= 95)%nat as H95.
    { unfold upto. rewrite length_take. unfold adjust.
      destruct (Z.ltb_spec 95 0); lia. }
    assert (length (upto name 95) <= length name)%nat as Hn.
    { unfold upto. rewrite length_take. lia. }
    rewrite length_app. rewrite <- Happ, length_app in Hc. split; lia.
  - unfold len in Hshort. split; lia.
Qed.

(** X21.  A name without dangerous characters and of at most 100
    characters is returned unchanged; hence sanitising a result of at most
    100 characters again changes nothing. *)
Theorem sanitize_fixes_safe_names (filename : str) :
  len (sanitize_filename filename) <= 100 ->
  sanitize_filename (sanitize_filename filename) = sanitize_filename filename /\
  forall safe : str,
    Forall (fun c => ~ In c dangerous_chars) safe -> len safe <= 100 ->
    sanitize_filename safe = safe.
Proof.
  intros H. split.
  - apply sanitize_safe_name; [apply sanitize_safe|done].
  - apply sanitize_safe_name.
Qed.

End SanitizeFacts.

(** * The metrics history *)

Section HistoryFacts.
Import PySlice Performance.

Variable float : Type.

Abbreviation add := (add_metrics float).

(** One call, in terms of the list: the new entry goes to the end and
    the oldest entries beyond 100 are dropped. *)
Lemma add_metrics_drop (history : list (PerformanceMetrics float))
      (m : PerformanceMetrics float) :
  add history m = drop (S (length history) - 100) (history ++ [m]).
Proof.
  unfold add_metrics, from, adjust, len. rewrite length_app. simpl length.
  destruct (Z.ltb_spec 100 (Z.of_nat (length history + 1))).
  - destruct (Z.ltb_spec (-100) 0); [|lia]. f_equal. lia.
  - replace (S (length history) - 100)%nat with 0%nat by lia. done.
Qed.

Lemma foldl_add_window (recorded : list (PerformanceMetrics float)) :
  forall history : list (PerformanceMetrics float),
    (length history <= 100)%nat ->
    foldl add history recorded =
      drop (length history + length recorded - 100) (history ++ recorded).
Proof.
  induction recorded as [|x recorded IH]; intros history Hlen.
  - simpl. rewrite app_nil_r.
    replace (length history + 0 - 100)%nat with 0%nat by lia. done.
  - cbn [foldl]. rewrite IH.
    + rewrite add_metrics_drop.
      assert (S (length history) - 100 <= length (history ++ [x]))%nat as Hd
        by (rewrite length_app; simpl; lia).
      rewrite length_drop, length_app. simpl length.
      rewrite <- (drop_app_le (history ++ [x]) recorded) by done.
      rewrite drop_drop, <- app_assoc. cbn [app]. f_equal. lia.
    + rewrite add_metrics_drop, length_drop, length_app. simpl. lia.
Qed.

(** X22.  The history is a sliding window: starting from the empty
    history of the constructor, after any number of calls it holds the
    entries recorded so far without the oldest ones beyond 100, in the
    order of recording; and after a call on any history it holds at most
    100 entries, the entry just added being the last. *)
Theorem history_is_last_100 (history recorded : list (PerformanceMetrics float))
        (m : PerformanceMetrics float) :
  foldl add [] recorded = drop (length recorded - 100) recorded /\
  (length (add history m) <= 100)%nat /\
  last (add history m) = Some m.
Proof.
  split; [|split].
  - rewrite foldl_add_window by (simpl; lia). done.
  - rewrite add_metrics_drop, length_drop, length_app. simpl. lia.
  - rewrite add_metrics_drop.
    rewrite drop_app_le by lia.
    apply last_snoc.
Qed.

End HistoryFacts.

(** * From the grammar engine to the patcher *)

Section IssueFacts.
Import Issues.

(** Issues that do not take part leave the text alone. *)
Lemma apply_nobody (text : Modify.str) (l : list Modify.issue) :
  Forall (fun i => participates i = false) l ->
  apply_ai_context_improvements text l = text.
Proof.
  intros H. rewrite apply_as_fold, foldl_apply_filter, filter_sorted_desc.
  replace (List.filter participates l) with (@nil Modify.issue); [done|].
  induction H as [|i l Hi Hl IH]; simpl; [done|]. by rewrite Hi.
Qed.

(** X23.  [check_text] returns no issue when the engine is missing or
    raises; otherwise it returns one issue per match, in the order of the
    matches and with their offsets and lengths, each with at most five
    replacements, namely the first five string values of the match. *)
Theorem check_text_spec (tool : option (string -> option (list Match))) (text : string) :
  match tool with
  | None => check_text tool text = []
  | Some check =>
      match check text with
      | None => check_text tool text = []
      | Some matches =>
          (offset <$> check_text tool text) = (m_offset <$> matches) /\
          (length <$> check_text tool text) = (m_errorLength <$> matches) /\
          (replacements <$> check_text tool text) =
            ((fun m => take 5 (string_values (m_replacements m))) <$> matches) /\
          Forall (fun i => (List.length (replacements i) <= 5)%nat)
                 (check_text tool text)
      end
  end.
Proof.
  destruct tool as [check|]; [|done]. cbn [check_text].
  destruct (check text) as [matches|]; [|done].
  repeat split.
  - induction matches as [|m l IH]; [done|]. cbn. by rewrite <- IH.
  - induction matches as [|m l IH]; [done|]. cbn. by rewrite <- IH.
  - induction matches as [|m l IH]; [done|]. cbn. by rewrite <- IH.
  - induction matches as [|m l IH]; constructor; [|done].
    cbn [issue_of replacements]. rewrite length_take. lia.
Qed.

(** X24.  The enrichment returns as many issues as it is given, in the
    same order, and changes neither message, rule, offset, length,
    replacements nor context of any of them: it only adds the improvement
    and the marker. *)
Theorem enhance_keeps_issues (enabled client : bool)
        (improve : string -> string -> option string) (issues : list grammar_issue) :
  ((fun i => (message i, rule i, offset i, length i, replacements i, context i))
     <$> enhance_grammar_analysis enabled client improve issues) =
  ((fun i => (message i, rule i, offset i, length i, replacements i, context i))
     <$> issues).
Proof.
  unfold enhance_grammar_analysis. destruct (negb enabled || negb client); [done|].
  induction issues as [|i l IH]; [done|].
  cbn [map fmap list_fmap]. f_equal; [|exact IH].
  unfold enhance_issue. destruct (nonempty (context i)); [|done].
  destruct (improve (context i) (message i)) as [s|]; [|done].
  by destruct (nonempty s).
Qed.

(** X25.  An issue of the checker takes part in the patching exactly
    when it has a context and the service returned a non-empty
    improvement for it. *)
Theorem enhanced_issue_participates (improve : string -> string -> option string)
        (m : Match) :
  participates (to_patch (enhance_issue improve (issue_of m))) =
    nonempty (m_context m) &&
    match improve (m_context m) (m_message m) with
    | Some improvement => nonempty improvement
    | None => false
    end.
Proof.
  unfold enhance_issue. cbn [issue_of context message].
  destruct (nonempty (m_context m)); [|done].
  destruct (improve (m_context m) (m_message m)) as [s|]; [|done].
  destruct s as [|c s]; done.
Qed.

(** X26.  Without enrichment nothing is patched: the issues of the
    checker, passed through a disabled analyser (no key, or no client),
    leave every text unchanged. *)
Theorem unenhanced_issues_leave_text (text : Modify.str)
        (tool : option (string -> option (list Match))) (checked : string)
        (enabled client : bool) (improve : string -> string -> option string) :
  negb enabled || negb client = true ->
  apply_ai_context_improvements text
    (to_patch <$> enhance_grammar_analysis enabled client improve
                    (check_text tool checked)) = text.
Proof.
  intros Hoff. unfold enhance_grammar_analysis. rewrite Hoff.
  apply apply_nobody.
  destruct tool as [check|]; [|constructor]. cbn [check_text].
  destruct (check checked) as [matches|]; [|constructor].
  induction matches as [|m l IH]; constructor; [done|exact IH].
Qed.

End IssueFacts.

(** * Concrete runs of the further properties *)

Section MoreValidatorRuns.
Import Security.

Lemma accepted_file_invariant_witness :
  _detect_file_type (b "%PDF-1.4 hello") = _get_file_extension "report.pdf" /\
  _validate_file_signature (b "%PDF-1.4 hello") (_get_file_extension "report.pdf") = true.
Proof.
  destruct (accepted_file_invariant (fun _ => "") (fun _ => "")
              (b "%PDF-1.4 hello") "report.pdf" "File validation passed"
              (validate_file (fun _ => "") (fun _ => "")
                             (b "%PDF-1.4 hello") "report.pdf").2 eq_refl)
    as (_ & _ & Htype & Hsig & _).
  exact (conj Htype Hsig).
Defined.

(** A text file, as in the test of the repository. *)
Lemma unsupported_extension_rejected_witness :
  validate_file (fun _ => "") (fun _ => "")
                (b "Hello world. This are bad grammar.") "sample.txt" =
    (false, "Invalid file signature detected",
     {| filename := "sample.txt";
        file_size := len (b "Hello world. This are bad grammar.");
        file_hash := "";
        file_type := _detect_file_type (b "Hello world. This are bad grammar.");
        security_checks := NoChecks |}).
Proof.
  apply (unsupported_extension_rejected (fun _ => "") (fun _ => "")
           (b "Hello world. This are bad grammar.") "sample.txt");
    vm_compute; discriminate.
Defined.

(** A buffer of 50 MiB and one byte. *)
Lemma oversize_rejected_witness :
  (validate_file (fun _ => "") (fun _ => "")
                 (repeat x00 (Z.to_nat (50 * 1024 * 1024 + 1))) "big.pdf").1.2
  = "File too large. Maximum size: 50.0MB".
Proof.
  destruct (oversize_rejected (fun _ => "") (fun _ => "")
              (repeat x00 (Z.to_nat (50 * 1024 * 1024 + 1))) "big.pdf"
              (50 * 1024 * 1024)) as [Hrun _].
  - reflexivity.
  - unfold len. rewrite repeat_length. rewrite Z2Nat.id; lia.
  - rewrite Hrun. reflexivity.
Defined.

End MoreValidatorRuns.

Section MoreCacheRuns.
Import Cache.

(** Two contents with different digests, stored and looked up under one
    file name. *)
Lemma store_frame_witness :
  (get (fun c => match c with [] => "e" | _ => "n" end) (fun _ => []) 24 60
       [x00] "a.pdf"
       (set (fun c => match c with [] => "e" | _ => "n" end) (fun _ => []) 0
            [] "a.pdf" JNull ∅)).1
  = (get (fun c => match c with [] => "e" | _ => "n" end) (fun _ => []) 24 60
         [x00] "a.pdf" ∅).1.
Proof.
  apply (store_frame (fun c => match c with [] => "e" | _ => "n" end) (fun _ => [])
           24 0 60 [] [x00] "a.pdf" "a.pdf" JNull ∅).
  vm_compute. discriminate.
Defined.

(** Stored at time 0, looked up after 25 hours. *)
Lemma store_then_late_lookup_witness :
  get (fun _ => "k") (fun _ => []) 24 90000 [] "a.pdf"
      (set (fun _ => "k") (fun _ => []) 0 [] "a.pdf" JNull ∅)
  = (None, delete "k_k.json" ∅).
Proof.
  apply (store_then_late_lookup (fun _ => "k") (fun _ => []) 24 0 90000
           [] "a.pdf" JNull ∅).
  vm_compute. reflexivity.
Defined.

(** An entry of one hour survives a sweep. *)
Lemma sweep_keeps_fresh_witness :
  (clear_expired 24 3600 (set (fun _ => "k") (fun _ => []) 0 [] "a.pdf" JNull ∅)).2
    !! "k_k.json"
  = Some (File 0 (Some (JDict [("timestamp", JNum 0); ("filename", JStr "a.pdf");
                               ("data", JNull)]))).
Proof.
  apply (sweep_keeps_fresh 24 3600
           (set (fun _ => "k") (fun _ => []) 0 [] "a.pdf" JNull ∅) "k_k.json").
  - reflexivity.
  - left. vm_compute. discriminate.
Defined.

End MoreCacheRuns.

Section MorePatcherRuns.
Import PySlice.

(** Three issues, one of them inside the span of another, in two
    orders. *)
Lemma order_is_irrelevant_for_distinct_offsets_witness :
  apply_ai_context_improvements (str_of "This are a test and they is here")
    [Issue (Some 5) (Some 3) (Some (str_of "is")) true;
     Issue (Some 20) (Some 4) (Some (str_of "she")) true;
     Issue (Some 6) (Some 1) (Some (str_of "R")) true]
  = apply_ai_context_improvements (str_of "This are a test and they is here")
    [Issue (Some 6) (Some 1) (Some (str_of "R")) true;
     Issue (Some 5) (Some 3) (Some (str_of "is")) true;
     Issue (Some 20) (Some 4) (Some (str_of "she")) true].
Proof.
  apply order_is_irrelevant_for_distinct_offsets.
  - apply Permutation_sym.
    apply (Permutation_cons_app
             [Issue (Some 5) (Some 3) (Some (str_of "is")) true;
              Issue (Some 20) (Some 4) (Some (str_of "she")) true] []).
    rewrite app_nil_r. apply Permutation_refl.
  - cbn. repeat constructor; rewrite ?elem_of_cons, ?elem_of_nil; intuition discriminate.
Defined.

Lemma single_replacement_in_bounds_witness :
  apply_ai_context_improvements (str_of "This are a test.")
    [Issue (Some 5) (Some 3) (Some (str_of "is")) true]
  = str_of "This is a test." /\
  len (apply_ai_context_improvements (str_of "This are a test.")
         [Issue (Some 5) (Some 3) (Some (str_of "is")) true]) = 16 - 3 + 2.
Proof.
  apply (single_replacement_in_bounds (str_of "This are a test.")
           (Issue (Some 5) (Some 3) (Some (str_of "is")) true));
    vm_compute; first [reflexivity | discriminate].
Defined.

End MorePatcherRuns.

Section MoreSanitizeRuns.
Import PySlice OsPath Sanitize.

(** A path with directories and dangerous characters. *)
Example sanitize_example :
  sanitize_filename (list_ascii_of_string "../uploads/re:port<1>.docx")
  = list_ascii_of_string "re_port_1_.docx".
Proof. reflexivity. Qed.

(** The extension is kept whole, so a long extension gives a long
    name: two characters, a dot and an extension of 120 characters stay
    123 characters. *)
Example sanitize_long_extension :
  length (sanitize_filename (list_ascii_of_string "ab." ++ repeat "x"%char 120)) = 123%nat.
Proof. reflexivity. Qed.

(** A stem of 120 characters. *)
Lemma sanitized_name_length_witness :
  (length (sanitize_filename (repeat "a"%char 120 ++ list_ascii_of_string ".docx"))
   <= 100)%nat /\
  (length (sanitize_filename (repeat "a"%char 120 ++ list_ascii_of_string ".docx"))
   <= length (repeat "a"%char 120 ++ list_ascii_of_string ".docx"))%nat.
Proof.
  split.
  - apply (proj2 (sanitized_name_length
                    (repeat "a"%char 120 ++ list_ascii_of_string ".docx"))).
    vm_compute. lia.
  - apply (proj1 (sanitized_name_length
                    (repeat "a"%char 120 ++ list_ascii_of_string ".docx"))).
Defined.

Lemma sanitize_fixes_safe_names_witness :
  sanitize_filename
    (sanitize_filename (list_ascii_of_string "../uploads/re:port<1>.docx"))
  = sanitize_filename (list_ascii_of_string "../uploads/re:port<1>.docx").
Proof.
  assert (len (sanitize_filename (list_ascii_of_string "../uploads/re:port<1>.docx"))
          <= 100) as H by (vm_compute; discriminate).
  exact (proj1 (sanitize_fixes_safe_names
                  (list_ascii_of_string "../uploads/re:port<1>.docx") H)).
Defined.

End MoreSanitizeRuns.

Section MoreIssueRuns.
Import Issues.

(** One match of the engine, and an analyser without a client. *)
Lemma unenhanced_issues_leave_text_witness :
  apply_ai_context_improvements (str_of "This are a test.")
    (to_patch <$> enhance_grammar_analysis true false (fun _ _ => Some "is")
       (check_text
          (Some (fun _ => Some [ {| m_message := "Agreement";
                                    m_ruleIssueType := Some "grammar";
                                    m_ruleId := Some "THIS_NNS";
                                    m_offset := 5;
                                    m_errorLength := 3;
                                    m_replacements := [StrValue "is"];
                                    m_context := "This are a test." |} ]))
          "This are a test."))
  = str_of "This are a test.".
Proof.
  apply unenhanced_issues_leave_text. reflexivity.
Defined.

(** The same match with a working analyser: the span is replaced by the
    text that the service returned. *)
Example enhanced_issue_is_applied :
  apply_ai_context_improvements (str_of "This are a test.")
    (to_patch <$> enhance_grammar_analysis true true (fun _ _ => Some "is")
       (check_text
          (Some (fun _ => Some [ {| m_message := "Agreement";
                                    m_ruleIssueType := Some "grammar";
                                    m_ruleId := Some "THIS_NNS";
                                    m_offset := 5;
                                    m_errorLength := 3;
                                    m_replacements := [StrValue "is"];
                                    m_context := "This are a test." |} ]))
          "This are a test."))
  = str_of "This is a test.".
Proof. reflexivity. Qed.

End MoreIssueRuns.

(** * Properties of the text cleaning and the word count *)

Section ExtractFacts.
Import Extract.

Lemma split_words (s : str) : Forall is_word (split s).
Proof.
  induction s as [|c s IH]; [constructor|].
  cbn [split]. destruct (isspace c) eqn:Hc; [done|].
  destruct s as [|c' s'].
  { repeat constructor; done. }
  destruct (isspace c') eqn:Hc'.
  { constructor; [|done]. split; [done|]. by repeat constructor. }
  destruct (split (c' :: s')) as [|word words].
  { repeat constructor; done. }
  apply Forall_cons in IH as [[_ Hw] Hws].
  constructor; [|done]. split; [done|]. by constructor.
Qed.

Lemma split_cons_word (c : ascii) (s : str) :
  isspace c = false -> split (c :: s) <> [].
Proof.
  intros Hc. cbn [split]. rewrite Hc.
  destruct s as [|c' s']; [done|].
  destruct (isspace c'); [done|]. by destruct (split (c' :: s')).
Qed.

Lemma join_spaces_cons (w : str) (ws : list str) :
  ws <> [] -> join_spaces (w :: ws) = w ++ " "%char :: join_spaces ws.
Proof. by destruct ws. Qed.

Lemma join_spaces_nil (ws : list str) :
  Forall is_word ws -> join_spaces ws = [] -> ws = [].
Proof.
  destruct ws as [|w ws]; [done|]. intros H Hj.
  apply Forall_cons in H as [[Hw _] _].
  destruct ws; simpl in Hj; [done|]. by destruct w.
Qed.

Lemma join_spaces_push (c : ascii) (w : str) (ws : list str) :
  join_spaces ((c :: w) :: ws) = c :: join_spaces (w :: ws).
Proof. by destruct ws. Qed.

Lemma rstrip_cons (c : ascii) (s : str) :
  isspace c = false ->
  rstrip (c :: s) = c :: rstrip s.
Proof. intros Hc. cbn [rstrip]. rewrite Hc. by destruct (rstrip s). Qed.

(** The collapsed text without its trailing space is the words of the
    text, joined by single spaces. *)
Lemma collapse_words (s : str) :
  rstrip (collapse true s) = join_spaces (split s) /\
  (forall c s', s = c :: s' -> isspace c = false ->
                rstrip (collapse false s) = join_spaces (split s)).
Proof.
  induction s as [|c s [IHG IHF]]; [done|].
  assert (isspace c = false ->
          rstrip (collapse false (c :: s)) = join_spaces (split (c :: s))) as HF.
  { intros Hc. cbn [collapse split]. rewrite Hc. rewrite rstrip_cons by done.
    destruct s as [|c' s']; [done|].
    destruct (isspace c') eqn:Hc'.
    - cbn [collapse split] in IHG. rewrite Hc' in IHG.
      cbn [collapse]. rewrite Hc'. cbn [rstrip]. rewrite IHG.
      change (isspace " "%char) with true.
      pose proof (split_words s') as Hw.
      assert (split (c' :: s') = split s') as Hsp by (cbn [split]; by rewrite Hc').
      rewrite Hsp.
      destruct (split s') as [|w ws] eqn:E; [done|].
      destruct (join_spaces (w :: ws)) eqn:Ej.
      { by apply join_spaces_nil in Ej. }
      rewrite <- Ej. by rewrite (join_spaces_cons [c]).
    - rewrite (IHF c' s' eq_refl Hc').
      pose proof (split_cons_word c' s' Hc') as Hne.
      destruct (split (c' :: s')) as [|w ws]; [done|].
      by rewrite join_spaces_push. }
  split.
  - destruct (isspace c) eqn:Hc.
    + cbn [collapse split]. by rewrite Hc.
    + rewrite <- HF by done. cbn [collapse]. by rewrite Hc.
  - intros c0 s0 [= <- <-]. exact HF.
Qed.

Lemma lstrip_collapse_true (s : str) :
  lstrip (collapse true s) = collapse true s.
Proof.
  induction s as [|c s IH]; [done|].
  cbn [collapse]. destruct (isspace c) eqn:Hc; [done|].
  cbn [lstrip]. by rewrite Hc.
Qed.

Lemma strip_collapse (s : str) :
  strip (collapse false s) = join_spaces (split s).
Proof.
  unfold strip. destruct s as [|c s]; [done|].
  destruct (isspace c) eqn:Hc.
  - cbn [collapse split]. rewrite Hc. cbn [lstrip].
    change (isspace " "%char) with true. cbn iota.
    rewrite lstrip_collapse_true. apply collapse_words.
  - destruct (collapse_words (c :: s)) as [_ HF].
    rewrite <- (HF c s eq_refl Hc).
    cbn [collapse]. rewrite Hc. cbn [lstrip]. by rewrite Hc.
Qed.

Lemma split_word_app (w : str) (s : str) :
  is_word w -> split (w ++ " "%char :: s) = w :: split s.
Proof.
  intros [Hne Hw]. induction w as [|c w IH]; [done|].
  apply Forall_cons in Hw as [Hc Hw].
  destruct w as [|c' w'].
  - cbn [app split]. rewrite Hc. by change (isspace " "%char) with true.
  - pose proof Hw as Hw'. apply Forall_cons in Hw' as [Hc' _].
    change ((c :: c' :: w') ++ " "%char :: s) with (c :: (c' :: w') ++ " "%char :: s).
    cbn [split]. rewrite Hc.
    change ((c' :: w') ++ " "%char :: s) with (c' :: w' ++ " "%char :: s) at 1.
    cbn iota. rewrite Hc'.
    change (c' :: w' ++ " "%char :: s) with ((c' :: w') ++ " "%char :: s).
    by rewrite IH.
Qed.

Lemma split_step (c c' : ascii) (s : str) :
  isspace c = false -> isspace c' = false ->
  split (c :: c' :: s) =
    match split (c' :: s) with
    | word :: words => (c :: word) :: words
    | [] => [[c]]
    end.
Proof. intros Hc Hc'. cbn [split]. by rewrite Hc, Hc'. Qed.

Lemma split_word (w : str) : is_word w -> split w = [w].
Proof.
  intros [Hne Hw]. induction w as [|c w IH]; [done|].
  apply Forall_cons in Hw as [Hc Hw].
  destruct w as [|c' w'].
  - cbn [split]. by rewrite Hc.
  - pose proof Hw as Hw'. apply Forall_cons in Hw' as [Hc' _].
    rewrite split_step by done. by rewrite IH.
Qed.

(** Splitting the joined words gives the words back. *)
Lemma split_join (ws : list str) :
  Forall is_word ws -> split (join_spaces ws) = ws.
Proof.
  induction 1 as [|w ws Hw Hws IH]; [done|].
  destruct ws as [|w2 rest]; [by apply split_word|].
  rewrite join_spaces_cons by done.
  rewrite split_word_app by done. by rewrite IH.
Qed.

Lemma strip_word (w : str) : is_word w -> strip w = w.
Proof.
  intros [Hne Hw]. unfold strip.
  assert (lstrip w = w) as ->.
  { destruct w as [|c w]; [done|]. apply Forall_cons in Hw as [Hc _].
    cbn [lstrip]. by rewrite Hc. }
  clear Hne. induction Hw as [|c w Hc Hw IH]; [done|].
  rewrite rstrip_cons by done. by rewrite IH.
Qed.

Lemma join_spaces_chars (ws : list str) (c : ascii) :
  c ∈ join_spaces ws -> c = " "%char \/ exists w, w ∈ ws /\ c ∈ w.
Proof.
  induction ws as [|w ws IH]; [by intros H%elem_of_nil|].
  destruct ws as [|w2 rest].
  - intros H. right. exists w. split; [by left|done].
  - rewrite join_spaces_cons by done. intros H.
    apply elem_of_app in H as [H | H].
    { right. exists w. split; [by left|done]. }
    apply elem_of_cons in H as [-> | H]; [by left|].
    destruct (IH H) as [-> | (w' & Hw' & Hc)]; [by left|].
    right. exists w'. split; [by right|done].
Qed.

Lemma split_chars (s : str) (w : str) (c : ascii) :
  w ∈ split s -> c ∈ w -> c ∈ s.
Proof.
  revert w. induction s as [|x s IH]; intros w Hw Hc.
  { by apply elem_of_nil in Hw. }
  cbn [split] in Hw. destruct (isspace x).
  { right. by apply (IH w). }
  destruct s as [|c' s'].
  { apply list_elem_of_singleton in Hw as ->. done. }
  destruct (isspace c').
  { apply elem_of_cons in Hw as [-> | Hw].
    - apply list_elem_of_singleton in Hc as ->. by left.
    - right. by apply (IH w). }
  destruct (split (c' :: s')) as [|word words] eqn:E.
  { apply list_elem_of_singleton in Hw as ->.
    apply list_elem_of_singleton in Hc as ->. by left. }
  apply elem_of_cons in Hw as [-> | Hw].
  - apply elem_of_cons in Hc as [-> | Hc]; [by left|].
    right. apply (IH word); [by left|done].
  - right. apply (IH w); [by right|done].
Qed.

Lemma remove_controls_id (s : str) :
  Forall (fun c => is_control c = false) s -> remove_controls s = s.
Proof.
  induction 1 as [|c s Hc Hs IH]; [done|].
  unfold remove_controls in *. cbn [List.filter]. rewrite Hc. cbn. by rewrite IH.
Qed.

Lemma remove_controls_clean (s : str) :
  Forall (fun c => is_control c = false) (remove_controls s).
Proof.
  apply Forall_forall. intros c Hc.
  apply list_elem_of_In, filter_In in Hc as [_ Hc]. by destruct (is_control c).
Qed.

Lemma clean_as_words (text : str) :
  clean_extracted_text text = join_spaces (split (remove_controls text)).
Proof.
  destruct text as [|c text]; [done|].
  unfold clean_extracted_text. apply strip_collapse.
Qed.

Lemma clean_no_controls (text : str) :
  Forall (fun c => is_control c = false) (clean_extracted_text text).
Proof.
  rewrite clean_as_words. apply Forall_forall. intros c Hc.
  apply join_spaces_chars in Hc as [-> | (w & Hw & Hc)]; [done|].
  pose proof (remove_controls_clean text) as H. rewrite Forall_forall in H.
  apply H. by apply (split_chars _ w).
Qed.

Lemma word_count_as_split (text : str) :
  get_word_count text = Z.of_nat (length (split text)).
Proof.
  destruct text as [|c text]; [done|].
  unfold get_word_count. do 2 f_equal.
  pose proof (split_words (c :: text)) as H.
  induction H as [|w ws Hw Hws IH]; [done|].
  cbn [List.filter]. rewrite strip_word by done.
  destruct Hw as [Hne _]. destruct w; [done|]. by rewrite IH.
Qed.

(** X27.  The cleaned text is the words of the text (its maximal runs of
    characters other than whitespace, control characters removed first)
    joined by single spaces; so it holds no control character, no
    whitespace other than one space between two words, and none at either
    end. *)
Theorem clean_extracted_text_spec (text : str) :
  clean_extracted_text text = join_spaces (split (remove_controls text)) /\
  Forall is_word (split (remove_controls text)) /\
  Forall (fun c => is_control c = false) (clean_extracted_text text).
Proof.
  split; [apply clean_as_words|]. split; [apply split_words|apply clean_no_controls].
Qed.

(** X28.  Cleaning is idempotent: a cleaned text is left as it is. *)
Theorem clean_extracted_text_idempotent (text : str) :
  clean_extracted_text (clean_extracted_text text) = clean_extracted_text text.
Proof.
  rewrite (clean_as_words (clean_extracted_text text)).
  rewrite remove_controls_id by apply clean_no_controls.
  rewrite clean_as_words.
  by rewrite split_join by apply split_words.
Qed.

(** X29.  The word count is the number of words that [split] finds (the
    filter on stripped words removes none), the number that the request
    handlers compute as [len(text.split())]; cleaning a text changes its
    word count only through the control characters it removes. *)
Theorem word_count_spec (text : str) :
  get_word_count text = Z.of_nat (length (split text)) /\
  get_word_count (clean_extracted_text text) = get_word_count (remove_controls text).
Proof.
  split; [apply word_count_as_split|].
  rewrite !word_count_as_split, clean_as_words.
  by rewrite split_join by apply split_words.
Qed.

End ExtractFacts.

(** * The validator and the extractor on the extension of a name *)

Section ExtensionFacts.
Import PySlice.

Lemma rfind_dot_rfind (p : list ascii) :
  Security.rfind_dot p = OsPath.rfind OsPath.extsep p.
Proof. induction p as [|x p IH]; [done|]. cbn. by rewrite IH. Qed.

Lemma rfind_neg (c : ascii) (p : list ascii) : OsPath.rfind c p < 0 -> c ∉ p.
Proof.
  induction p as [|x p IH]; intros H; [by intros ?%elem_of_nil|].
  cbn [OsPath.rfind] in H.
  destruct (Z.leb_spec 0 (OsPath.rfind c p)); [lia|].
  destruct (Ascii.eqb_spec x c); [lia|].
  apply not_elem_of_cons. split; [congruence|]. apply IH. lia.
Qed.

(** From the index that [rfind] returns on, the text is the character
    looked for and a rest without it. *)
Lemma rfind_drop (c : ascii) (p : list ascii) :
  0 <= OsPath.rfind c p ->
  exists tail, drop (Z.to_nat (OsPath.rfind c p)) p = c :: tail /\ c ∉ tail.
Proof.
  induction p as [|x p IH]; [simpl; lia|].
  cbn [OsPath.rfind]. destruct (Z.leb_spec 0 (OsPath.rfind c p)) as [Hr|Hr].
  - intros _. destruct (IH Hr) as (tail & Hd & Ht). exists tail. split; [|done].
    replace (Z.to_nat (OsPath.rfind c p + 1)) with (S (Z.to_nat (OsPath.rfind c p))) by lia.
    done.
  - destruct (Ascii.eqb_spec x c) as [->|]; [|lia]. intros _.
    exists p. split; [done|]. apply rfind_neg. lia.
Qed.

Lemma lower_keeps_dot_and_slash (x : ascii) :
  Ascii.eqb (Extract.char_lower x) "."%char = Ascii.eqb x "."%char /\
  Ascii.eqb (Extract.char_lower x) "/"%char = Ascii.eqb x "/"%char.
Proof. destruct x as [[] [] [] [] [] [] [] []]; split; reflexivity. Qed.

Lemma rfind_lower (c : ascii) (p : list ascii) :
  c = "."%char \/ c = "/"%char ->
  OsPath.rfind c (map Extract.char_lower p) = OsPath.rfind c p.
Proof.
  intros Hc. induction p as [|x p IH]; [done|].
  cbn [map OsPath.rfind]. rewrite IH.
  destruct (lower_keeps_dot_and_slash x) as [Hd Hs].
  destruct Hc as [-> | ->]; by rewrite ?Hd, ?Hs.
Qed.

(** The two models of [lower] agree wherever the validator's gives an
    ASCII character. *)
Lemma lower_agree (x : ascii) :
  (N_of_ascii (Security.char_lower x) < 128)%N ->
  Extract.char_lower x = Security.char_lower x.
Proof.
  destruct x as [[] [] [] [] [] [] [] []]; intros H; try reflexivity;
    vm_compute in H; discriminate H.
Qed.

Lemma lower_agree_all (l : list ascii) :
  Forall (fun c => (N_of_ascii c < 128)%N) (map Security.char_lower l) ->
  map Extract.char_lower l = map Security.char_lower l.
Proof.
  induction l as [|x l IH]; [done|]. cbn [map]. intros H.
  apply Forall_cons in H as [Hx Hl]. by rewrite lower_agree, IH.
Qed.

Lemma security_lower_dot (x : ascii) :
  Security.char_lower x = "."%char -> x = "."%char.
Proof. destruct x as [[] [] [] [] [] [] [] []]; intros H; try done; discriminate H. Qed.

Lemma split_on_absent (p : list ascii) :
  "/"%char ∉ p -> Security.split_on "/"%char p = [p].
Proof.
  induction p as [|x p IH]; [done|]. intros H.
  apply not_elem_of_cons in H as [Hx Hp].
  cbn [Security.split_on]. rewrite (IH Hp).
  destruct (Ascii.eqb_spec x "/"%char); [congruence|done].
Qed.

Lemma lstrip_dots_none (s : list ascii) :
  "."%char ∉ s -> Security.lstrip_dots s = s.
Proof.
  destruct s as [|x s]; [done|]. intros H.
  apply not_elem_of_cons in H as [Hx _].
  cbn. unfold Security.is_dot. destruct (Ascii.eqb_spec x "."%char); [congruence|done].
Qed.

Lemma lower_no_dot (s : list ascii) :
  "."%char ∉ s -> "."%char ∉ map Security.char_lower s.
Proof.
  intros H Hin. apply list_elem_of_In, in_map_iff in Hin as (x & Hx & Hin).
  apply H. apply list_elem_of_In. by rewrite <- (security_lower_dot x Hx).
Qed.

Lemma plain_suffix (c0 : ascii) (rest : list ascii) :
  "/"%char ∉ c0 :: rest -> c0 <> "."%char ->
  Security.path_suffix (c0 :: rest) =
    if (0 <? OsPath.rfind OsPath.extsep (c0 :: rest)) &&
       (OsPath.rfind OsPath.extsep (c0 :: rest) <? Z.of_nat (length (c0 :: rest)) - 1)
    then from (c0 :: rest) (OsPath.rfind OsPath.extsep (c0 :: rest))
    else [].
Proof.
  intros Hslash Hdot.
  assert (Security.path_name (c0 :: rest) = c0 :: rest) as Hname.
  { unfold Security.path_name. rewrite split_on_absent by done.
    assert (Security.kept_component (c0 :: rest) = true) as Hkept.
    { cbn. destruct rest; [|done]. unfold Security.is_dot.
      destruct (Ascii.eqb_spec c0 "."%char); [congruence|done]. }
    cbn [List.filter]. by rewrite Hkept. }
  unfold Security.path_suffix. rewrite Hname. by rewrite rfind_dot_rfind.
Qed.

Lemma extension_of_chars (p : list ascii) :
  Security._get_file_extension (string_of_list_ascii p) =
  string_of_list_ascii
    (Security.lstrip_dots (map Security.char_lower (Security.path_suffix p))).
Proof.
  unfold Security._get_file_extension. by rewrite list_ascii_of_string_of_list_ascii.
Qed.

(** The extension of a plain name, as both functions see it: the
    characters after the last dot, in lower case. *)
Lemma plain_name_extension (c0 : ascii) (rest : list ascii) :
  "/"%char ∉ c0 :: rest -> c0 <> "."%char ->
  Security._get_file_extension (string_of_list_ascii (c0 :: rest)) <> ""%string ->
  exists tail : list ascii,
    Security._get_file_extension (string_of_list_ascii (c0 :: rest)) =
      string_of_list_ascii (map Security.char_lower tail) /\
    Extract.upload_extension (c0 :: rest) = "."%char :: map Extract.char_lower tail.
Proof.
  intros Hslash Hdot Hext.
  rewrite extension_of_chars in *. rewrite plain_suffix in * by done.
  set (p := c0 :: rest) in *. set (i := OsPath.rfind OsPath.extsep p) in *.
  destruct ((0 <? i) && (i <? Z.of_nat (length p) - 1)) eqn:Hcond.
  2: { by destruct Hext. }
  apply andb_prop in Hcond as [Hi0 Hi1].
  apply Z.ltb_lt in Hi0, Hi1.
  destruct (rfind_drop OsPath.extsep p) as (tail & Hdrop & Htail); [fold i; lia|].
  fold i in Hdrop. exists tail.
  assert (from p i = "."%char :: tail) as Hfrom.
  { rewrite from_in_range by (unfold len; lia). exact Hdrop. }
  rewrite Hfrom. cbn [map].
  change (Security.char_lower "."%char) with "."%char.
  cbn [Security.lstrip_dots]. change (Security.is_dot "."%char) with true. cbn iota.
  rewrite lstrip_dots_none by (by apply lower_no_dot).
  split; [done|].
  unfold Extract.upload_extension, OsPath.splitext.
  rewrite !rfind_lower by auto. fold i.
  rewrite (rfind_absent OsPath.sep p) by done.
  assert (existsb (fun c => negb (Ascii.eqb c OsPath.extsep))
                  (slice (map Extract.char_lower p) (-1 + 1) i) = true) as Hex.
  { apply existsb_exists. exists (Extract.char_lower c0). split.
    - unfold slice, len. rewrite length_map.
      rewrite !adjust_in_range by lia. cbn [drop].
      destruct (Z.to_nat i) as [|k] eqn:Ek; [lia|].
      replace (S k - Z.to_nat (-1 + 1))%nat with (S k) by lia.
      subst p. cbn. by left.
    - destruct (lower_keeps_dot_and_slash c0) as [Hd _].
      unfold OsPath.extsep. rewrite Hd.
      destruct (Ascii.eqb_spec c0 "."%char); [congruence|done]. }
  rewrite Hex. destruct (Z.ltb_spec (-1) i); [|lia]. cbn [andb snd].
  rewrite from_in_range by (unfold len; rewrite length_map; lia).
  rewrite skipn_map, Hdrop. done.
Qed.

(** X9.  The validator and the extractor agree on plain names: for a
    name without a slash that does not start with a dot, if the validator
    reads the extension [pdf] or [docx] then the extractor reads the same
    extension (with its dot) and supports it, so a file that passed the
    validation is not refused by the extractor for its type. *)
Theorem validated_name_is_extractable (c0 : ascii) (rest : list ascii) :
  "/"%char ∉ c0 :: rest -> c0 <> "."%char ->
  Security._get_file_extension (string_of_list_ascii (c0 :: rest)) = "pdf"%string \/
  Security._get_file_extension (string_of_list_ascii (c0 :: rest)) = "docx"%string ->
  Extract.upload_extension (c0 :: rest) =
    "."%char ::
      list_ascii_of_string
        (Security._get_file_extension (string_of_list_ascii (c0 :: rest))) /\
  Extract.supported (c0 :: rest) = true.
Proof.
  intros Hslash Hdot Hext.
  destruct (plain_name_extension c0 rest Hslash Hdot) as (tail & Hv & Hx).
  { by destruct Hext as [-> | ->]. }
  assert (map Security.char_lower tail =
          list_ascii_of_string
            (Security._get_file_extension (string_of_list_ascii (c0 :: rest))))
    as Htail by (by rewrite Hv, list_ascii_of_string_of_list_ascii).
  assert (map Extract.char_lower tail = map Security.char_lower tail) as Hagree.
  { apply lower_agree_all. rewrite Htail.
    destruct Hext as [-> | ->]; repeat constructor. }
  rewrite Hx, Hagree, Htail. split; [done|].
  unfold Extract.supported, Extract.SUPPORTED_EXTENSIONS. cbn [existsb].
  rewrite Hx, Hagree, Htail. destruct Hext as [-> | ->].
  - rewrite bool_decide_eq_true_2 by done. done.
  - rewrite (bool_decide_eq_true_2 (_ = list_ascii_of_string ".docx")) by done.
    apply orb_true_r.
Qed.

End ExtensionFacts.

Section ExtensionRuns.

Lemma validated_name_is_extractable_witness :
  Extract.upload_extension (list_ascii_of_string "Report.PDF") =
    list_ascii_of_string ".pdf" /\
  Extract.supported (list_ascii_of_string "Report.PDF") = true.
Proof.
  apply (validated_name_is_extractable "R"%char (list_ascii_of_string "eport.PDF")).
  - intros Hin. apply list_elem_of_In in Hin. vm_compute in Hin. intuition discriminate.
  - discriminate.
  - left. reflexivity.
Defined.

(** Outside these names the two readings differ: the validator finds
    the extension [pdf] in both names below, the extractor finds none and
    refuses the type. *)
Example extension_readings_differ :
  Security._get_file_extension "..pdf" = "pdf"%string /\
  Extract.supported (list_ascii_of_string "..pdf") = false /\
  Security._get_file_extension "scan.pdf/" = "pdf"%string /\
  Extract.supported (list_ascii_of_string "scan.pdf/") = false.
Proof. repeat split; reflexivity. Qed.

End ExtensionRuns.
